(** * NIP-68 / NIP-71 event builder and relay publisher: a shallow embedding

    The Go commands [cmd/nip71] (video events) and [cmd/nip68] (picture
    events) and the package [internal/utils] they share are embedded here as
    Rocq functions.  Strings are Go strings (byte sequences), Go's [int] and
    [int64] are [Z], an [error] is its message, and every call that leaves
    the process (file system, HTTP, relays, the signer, the clock) is an
    explicit oracle or a state-passing step. *)

From Stdlib Require Import ZArith Ascii List Bool Lia DecimalString.
From Stdlib Require String DecimalPos.
From stdpp Require Import base option list strings gmap.

Import ListNotations.
Local Open Scope Z_scope.

(** ** Go runtime: errors, process exits, strconv, strings *)

Module Go.

(** A Go [(T, error)] pair: the value, or the error's message. *)
Inductive result (A : Type) : Type :=
| Ok (a : A)
| Err (msg : string).
Arguments Ok {A} a.
Arguments Err {A} msg.

(** How a call that may stop the process ends: it returns, [log.Fatalf]
    stops the process with a message, or a failed type assertion panics. *)
Inductive run (A : Type) : Type :=
| Return (a : A)
| Fatalf (msg : string)
| Panic.
Arguments Return {A} a.
Arguments Fatalf {A} msg.
Arguments Panic {A}.

(** A value of type [interface{}] as the commands use it: a string, a
    [float64] (kept as its conversion to [int64], the only use made of it),
    or anything else. *)
Inductive any : Type :=
| AnyString (s : string)
| AnyFloat64 (asInt64 : Z)
| AnyOther.

(** [strings.HasPrefix(s, p)]. *)
Definition HasPrefix (s p : string) : bool := String.prefix p s.

(** [strconv.Itoa], [strconv.FormatInt(_, 10)] and the verb [%d]. *)
Definition Itoa (n : Z) : string := NilZero.string_of_int (Z.to_int n).

Definition digitVal (c : ascii) : option Z :=
  let n := Z.of_N (N_of_ascii c) in
  if (48 <=? n) && (n <=? 57) then Some (n - 48) else None.

(** The digit loop of [strconv.ParseUint] in base 10 (no underscores are
    accepted outside base 0); the value is accumulated without a bound and
    the range is checked by the caller. *)
Fixpoint parseDigits (s : string) (acc : Z) : option Z :=
  match s with
  | EmptyString => Some acc
  | String c rest =>
      match digitVal c with
      | Some d => parseDigits rest (10 * acc + d)
      | None => None
      end
  end.

Inductive NumError : Type := ErrSyntax | ErrRange.

(** [strconv.ParseInt(s, 10, 64)]. *)
Definition ParseInt (s : string) : NumError + Z :=
  match s with
  | EmptyString => inl ErrSyntax
  | String c rest =>
      let neg := Ascii.eqb c "-"%char in
      let digits := if Ascii.eqb c "+"%char || neg then rest else s in
      match digits with
      | EmptyString => inl ErrSyntax
      | _ =>
          match parseDigits digits 0 with
          | None => inl ErrSyntax
          | Some un =>
              let cutoff := 2 ^ 63 in
              if negb neg && (cutoff <=? un) then inl ErrRange
              else if neg && (cutoff <? un) then inl ErrRange
              else inr (if neg then - un else un)
          end
      end
  end.

(** The line feed that ends the lines [fmt.Printf] writes. *)
Definition newline : string := String "010"%char EmptyString.

(** [hex.EncodeToString] and the verb [%x] on a byte slice. *)
Definition hexDigit (n : N) : ascii :=
  if (n <? 10)%N then ascii_of_N (48 + n) else ascii_of_N (87 + n).

Fixpoint hexEncode (bytes : string) : string :=
  match bytes with
  | EmptyString => EmptyString
  | String c rest =>
      let n := N_of_ascii c in
      String (hexDigit (n / 16)) (String (hexDigit (n mod 16)) (hexEncode rest))
  end.

End Go.

Export Go.

(** ** The go-nostr data model *)

Module Nostr.

Definition Tag : Type := list string.
Definition Tags : Type := list Tag.

Record Event : Type := mkEvent {
  ID : string;
  PubKey : string;
  CreatedAt : Z;
  Kind : Z;
  Tags_ : Tags;
  Content : string;
  Sig : string
}.

Definition setTags (e : Event) (ts : Tags) : Event :=
  mkEvent (ID e) (PubKey e) (CreatedAt e) (Kind e) ts (Content e) (Sig e).

Definition setPubKey (e : Event) (pk : string) : Event :=
  mkEvent (ID e) pk (CreatedAt e) (Kind e) (Tags_ e) (Content e) (Sig e).

(** The [nostr.Keyer] interface.  [GetPublicKey] yields the hex public key;
    signing yields the identifier, public key and signature that
    [SignEvent] stores in the event (kind, tags, content and creation time
    are what the signature covers and are left as built). *)
Record Keyer : Type := mkKeyer {
  GetPublicKey : result string;
  signatureOf : Event -> result (string * string * string)
}.

Definition SignEvent (signer : Keyer) (e : Event) : result Event :=
  match signatureOf signer e with
  | Err msg => Err msg
  | Ok (id, pk, sg) =>
      Ok (mkEvent id pk (CreatedAt e) (Kind e) (Tags_ e) (Content e) sg)
  end.

End Nostr.

Export Nostr.

(** ** The outside world

    Everything the commands ask of the operating system and of the Go
    libraries, as oracles.  Clock reads are separate fields, one for each
    place the code reads the time. *)

Module Env.

(** An opened file: its bytes, the error (if any) of reading it through,
    and what [Stat] says its size is. *)
Record File : Type := mkFile {
  contents : string;
  copyErr : option string;
  statSize : result Z
}.

Record Request : Type := mkRequest {
  Method : string;
  URL : string;
  Header : list (string * string);
  ReqBody : string
}.

Record Response : Type := mkResponse {
  StatusCode : Z;
  Status : string;
  Body : string
}.

(** What [ExtractMediaInfo] returns on success. *)
Record MediaInfo : Type := mkMediaInfo {
  width : Z;
  height : Z;
  fileSize : Z;
  fileHash : string;
  bhash : string;
  mime : string
}.

Record World : Type := mkWorld {
  (* os *)
  osOpen : string -> result File;
  osStat : string -> option string;
  osCreateTemp : result string;
  osTempDir : string;
  ioCopyToFile : string -> string -> option string;
  (* crypto/sha256, encoding/base64, encoding/json *)
  sha256Sum : string -> string;
  base64Encode : string -> string;
  jsonMarshal : Event -> result string;
  jsonDecodeObject : string -> result (gmap string any);
  jsonDecodeStrings : string -> result (list string);
  (* net/url, net/http *)
  ParseRequestURI : string -> option string;
  NewRequest : string -> string -> option string;
  clientDo : Request -> result Response;
  httpGet : string -> result Response;
  (* h2non/filetype on the first 261 bytes *)
  filetypeMatch : string -> result string;
  (* go-nostr: nip19, keyer, the event identifier, faults of nip13 *)
  nip19Decode : string -> result (string * any);
  NewPlainKeySigner : string -> result Keyer;
  GetID : Event -> string;
  workFault : Event -> option string;
  (* image decoding, blurhash and the ffmpeg tool *)
  imageDecode : string -> result (Z * Z);
  blurhashEncode : Z -> Z -> string -> result string;
  ffmpegFrame : string -> string -> option string;
  (* the clock, in Unix seconds *)
  nowAtParse : Z;
  nowAtUpload : Z;
  nowAtAuthEvent : Z;
  nowAfterUpload : Z;
  nowAtBuild : Z
}.

(** A relay network as a state machine: connecting, publishing and
    answering an authentication challenge each move the network's state and
    report an error or none.  [relayAuth] is handed the signing callback. *)
Record Network (S Conn : Type) : Type := mkNetwork {
  RelayConnect : S -> string -> S * result Conn;
  relayPublish : S -> Conn -> Event -> S * option string;
  relayAuth : S -> Conn -> (Event -> result Event) -> S * option string;
  relayClose : S -> Conn -> S
}.
Arguments mkNetwork {S Conn} _ _ _ _.
Arguments RelayConnect {S Conn} _ _ _.
Arguments relayPublish {S Conn} _ _ _ _.
Arguments relayAuth {S Conn} _ _ _ _.
Arguments relayClose {S Conn} _ _ _.

(** What an observer of the process sees, in order. *)
Inductive Action : Type :=
| AConnect (relayURL : string)
| APublish (relayURL : string) (e : Event)
| AAuth (relayURL : string)
| AClose (relayURL : string)
| ALogPrintf (msg : string)
| APrintf (msg : string)
| APrintln (msg : string) (e : Event)
| ARemove (path : string).

End Env.

Export Env.

(** ** internal/utils *)

Module Utils.

(** [ValidateInput]: [None] is Go's [nil]. *)
Definition ValidateInput (w : World) (videoURL title publishedAt : string)
  : option string :=
  if String.eqb videoURL "" then Some "video URL cannot be empty"
  else
    match ParseRequestURI w videoURL with
    | Some _ => Some "invalid video URL"
    | None =>
        if String.eqb publishedAt "" then Some "published_at cannot be empty"
        else
          match ParseInt publishedAt with
          | inl _ => Some "invalid published_at timestamp"
          | inr _ => None
          end
    end.

(** [DownloadVideo]. *)
Definition DownloadVideo (w : World) (videoURL : string) : result string :=
  match httpGet w videoURL with
  | Err e => Err e
  | Ok resp =>
      if negb (StatusCode resp =? 200) && negb (StatusCode resp =? 206)
      then Err ("failed to download video: " +:+ Status resp)
      else
        match osCreateTemp w with
        | Err e => Err e
        | Ok name =>
            match ioCopyToFile w name (Body resp) with
            | Some e => Err e
            | None => Ok name
            end
        end
  end.

(** The 261-byte buffer [file.Read] fills: the head of the file, zero
    padded. *)
Definition readHead (bytes : string) : string :=
  let head := String.substring 0 261 bytes in
  head +:+ String.string_of_list_ascii
            (repeat Ascii.zero (261 - Nat.min 261 (String.length bytes))%nat).

(** [generateBlurhash]: a grid of 9 by 7, turned when the image is taller
    than wide. *)
Definition generateBlurhash (w : World) (width height : Z) (img : string)
  : result string :=
  let '(x, y) := if width <? height then (7, 9) else (9, 7) in
  match blurhashEncode w x y img with
  | Err e => Err ("generating blurhash: " +:+ e)
  | Ok bhash => Ok bhash
  end.

(** [GetImageDimensions]: width, height and blurhash of an image file. *)
Definition GetImageDimensions (w : World) (filePath : string)
  : result (Z * Z * string) :=
  match osOpen w filePath with
  | Err e => Err e
  | Ok file =>
      match imageDecode w (contents file) with
      | Err e => Err e
      | Ok (width, height) =>
          match generateBlurhash w width height (contents file) with
          | Err e => Err e
          | Ok bhash => Ok (width, height, bhash)
          end
      end
  end.

(** [GetVideoDimensions]: one frame is extracted with ffmpeg and measured
    as an image. *)
Definition GetVideoDimensions (w : World) (filePath : string)
  : result (Z * Z * string) :=
  let framePath := osTempDir w +:+ "/frame.jpg" in
  match ffmpegFrame w filePath framePath with
  | Some e => Err ("extracting frame from video: " +:+ e)
  | None => GetImageDimensions w framePath
  end.

(** [GetMediaDimensions]; [filetype.Match] answers the MIME type, the empty
    string standing for [types.Unknown]. *)
Definition GetMediaDimensions (w : World) (filePath fileType : string)
  : result (Z * Z * string * string) :=
  match osOpen w filePath with
  | Err e => Err ("error opening file: " +:+ e)
  | Ok file =>
      if String.eqb (contents file) "" then Err "error reading file: EOF"
      else
        match filetypeMatch w (readHead (contents file)) with
        | Err e => Err ("error matching file: " +:+ e)
        | Ok kind =>
            if String.eqb kind "" then Err "unknown file type"
            else if HasPrefix kind "image" && String.eqb fileType "image" then
              match GetImageDimensions w filePath with
              | Err e => Err e
              | Ok (width, height, bhash) => Ok (width, height, bhash, kind)
              end
            else if HasPrefix kind "video" && String.eqb fileType "video" then
              match GetVideoDimensions w filePath with
              | Err e => Err e
              | Ok (width, height, bhash) => Ok (width, height, bhash, kind)
              end
            else Err "unsupported media type"
        end
  end.

(** [ExtractMediaInfo]: the dimensions, then the SHA-256 of the whole file
    in hexadecimal, then its size. *)
Definition ExtractMediaInfo (w : World) (imagePath fileType : string)
  : result MediaInfo :=
  match GetMediaDimensions w imagePath fileType with
  | Err e => Err ("GetMediaDimensions: " +:+ e)
  | Ok (width, height, bhash, mime) =>
      match osOpen w imagePath with
      | Err e => Err ("open(" +:+ imagePath +:+ "): " +:+ e)
      | Ok file =>
          match copyErr file with
          | Some e => Err ("hashing " +:+ imagePath +:+ ": " +:+ e)
          | None =>
              let fileHash := hexEncode (sha256Sum w (contents file)) in
              match statSize file with
              | Err e => Err ("stat(" +:+ imagePath +:+ "): " +:+ e)
              | Ok fileSize =>
                  Ok (mkMediaInfo width height fileSize fileHash bhash mime)
              end
          end
      end
  end.

(** The event [createAuthorizationEvent] builds before it asks for the
    public key (lines "Create a new event" to "Add additional tags"). *)
Definition newAuthorizationEvent (w : World) (verb : string) (tags : Tags)
  : Event :=
  let event := mkEvent "" "" (nowAtAuthEvent w) 24242 [] "Upload file" "" in
  let event := setTags event (Tags_ event ++ [["t"; verb]]) in
  fold_left (fun ev tag => setTags ev (Tags_ ev ++ [tag])) tags event.

(** The signed authorization event, before serialization. *)
Definition signedAuthorizationEvent (w : World) (signer : Keyer)
  (verb : string) (tags : Tags) : result Event :=
  let event := newAuthorizationEvent w verb tags in
  match GetPublicKey signer with
  | Err e => Err e
  | Ok pubKeyHex =>
      let event := setPubKey event pubKeyHex in
      SignEvent signer event
  end.

Definition createAuthorizationEvent (w : World) (signer : Keyer)
  (verb : string) (tags : Tags) : result string :=
  match signedAuthorizationEvent w signer verb tags with
  | Err e => Err e
  | Ok event =>
      match jsonMarshal w event with
      | Err e => Err e
      | Ok eventJSON => Ok (base64Encode w eventJSON)
      end
  end.

(** The tags [UploadFile] asks the authorization event to carry. *)
Definition uploadTags (w : World) (sha256Hash : string) : Tags :=
  [ ["x"; sha256Hash];
    ["t"; "upload"];
    ["expiration"; Itoa (nowAtUpload w + 5 * 60)] ].

(** The first part of [UploadFile], up to the request it is about to send:
    the file is opened, hashed and sniffed, the authorization event is
    created, and the request gets its three headers. *)
Definition uploadRequest (w : World) (server filePath : string)
  (signer : Keyer) : result Request :=
  match osOpen w filePath with
  | Err e => Err e
  | Ok file =>
      match copyErr file with
      | Some e => Err e
      | None =>
          let sha256Hash := hexEncode (sha256Sum w (contents file)) in
          match statSize file with
          | Err e => Err e
          | Ok size =>
              if String.eqb (contents file) "" then Err "EOF"
              else
                match filetypeMatch w (readHead (contents file)) with
                | Err e => Err e
                | Ok mimeType =>
                    match createAuthorizationEvent w signer "upload"
                            (uploadTags w sha256Hash) with
                    | Err e => Err e
                    | Ok authEventJSON =>
                        let uploadURL := server +:+ "/upload" in
                        match NewRequest w "PUT" uploadURL with
                        | Some e => Err e
                        | None =>
                            Ok (mkRequest "PUT" uploadURL
                                  [ ("Content-Type", mimeType);
                                    ("Content-Length", Itoa size);
                                    ("Authorization",
                                     "Nostr " +:+ authEventJSON) ]
                                  (contents file))
                        end
                    end
                end
          end
      end
  end.

(** [UploadFile]: the request is sent, the status of the response is
    checked, and the body is decoded into the descriptor. *)
Definition UploadFile (w : World) (server filePath : string) (signer : Keyer)
  : result (gmap string any) :=
  match uploadRequest w server filePath signer with
  | Err e => Err e
  | Ok req =>
      match clientDo w req with
      | Err e => Err e
      | Ok resp =>
          if negb (StatusCode resp =? 200)
             && negb (StatusCode resp =? 201)
             && negb (StatusCode resp =? 202)
          then Err ("upload failed: " +:+ Body resp
                      +:+ ", code " +:+ Itoa (StatusCode resp))
          else jsonDecodeObject w (Body resp)
      end
  end.

(** [LoadRelaysFromFile]. *)
Definition LoadRelaysFromFile (w : World) (filePath : string)
  : run (list string) :=
  match osOpen w filePath with
  | Err e => Fatalf ("Error opening " +:+ filePath +:+ ": " +:+ e)
  | Ok file =>
      match copyErr file with
      | Some e => Fatalf ("Error decoding " +:+ filePath +:+ ": " +:+ e)
      | None =>
          match jsonDecodeStrings w (contents file) with
          | Err e => Fatalf ("Error decoding " +:+ filePath +:+ ": " +:+ e)
          | Ok relays => Return relays
          end
      end
  end.

(** *** Publishing to relays *)

Section Publish.

Context {S Conn : Type} (net : Network S Conn).

(** The prefix of a rejection that asks the client to authenticate. *)
Definition authRequired : string := "msg: auth-required:".

(** One turn of the loop of [PublishEvent]: the network state after it, what
    was done, and the connection whose [Close] was deferred, if one was
    opened.  Every [continue] of the Go loop is an end of this function. *)
Definition publishToRelay (event : Event) (signer : Keyer) (s : S)
  (relayURL : string) : S * list Action * option Conn :=
  match RelayConnect net s relayURL with
  | (s1, Err err) =>
      (s1,
       [AConnect relayURL;
        ALogPrintf ("Error connecting to relay " +:+ relayURL +:+ ": " +:+ err)],
       None)
  | (s1, Ok relay) =>
      match relayPublish net s1 relay event with
      | (s2, None) =>
          (s2,
           [AConnect relayURL; APublish relayURL event;
            APrintf ("Published event to relay " +:+ relayURL
                       +:+ " successfully" +:+ newline)],
           Some relay)
      | (s2, Some err) =>
          if HasPrefix err authRequired then
            match relayAuth net s2 relay (SignEvent signer) with
            | (s3, Some authErr) =>
                (s3,
                 [AConnect relayURL; APublish relayURL event; AAuth relayURL;
                  ALogPrintf ("Error sending auth event to relay " +:+ relayURL
                                +:+ ": " +:+ authErr)],
                 Some relay)
            | (s3, None) =>
                match relayPublish net s3 relay event with
                | (s4, Some err2) =>
                    (s4,
                     [AConnect relayURL; APublish relayURL event;
                      AAuth relayURL; APublish relayURL event;
                      ALogPrintf ("Error publishing event to relay "
                                    +:+ relayURL +:+ " after auth: " +:+ err2)],
                     Some relay)
                | (s4, None) =>
                    (s4,
                     [AConnect relayURL; APublish relayURL event;
                      AAuth relayURL; APublish relayURL event;
                      APrintf ("Published event to relay " +:+ relayURL
                                 +:+ " successfully after auth" +:+ newline)],
                     Some relay)
                end
            end
          else
            (s2,
             [AConnect relayURL; APublish relayURL event;
              ALogPrintf ("Error publishing event to relay " +:+ relayURL
                            +:+ ": " +:+ err)],
             Some relay)
      end
  end.

(** The loop over the relays.  [deferred] is the stack of deferred [Close]
    calls, the latest first. *)
Fixpoint publishLoop (event : Event) (signer : Keyer) (s : S)
  (relays : list string) (deferred : list (string * Conn))
  : S * list Action * list (string * Conn) :=
  match relays with
  | [] => (s, [], deferred)
  | relayURL :: rest =>
      match publishToRelay event signer s relayURL with
      | (s', acts, opened) =>
          let deferred' :=
            match opened with
            | Some relay => (relayURL, relay) :: deferred
            | None => deferred
            end in
          match publishLoop event signer s' rest deferred' with
          | (s'', acts', deferred'') => (s'', acts ++ acts', deferred'')
          end
      end
  end.

(** The deferred [Close] calls, run when [PublishEvent] returns. *)
Fixpoint runDeferred (s : S) (deferred : list (string * Conn))
  : S * list Action :=
  match deferred with
  | [] => (s, [])
  | (relayURL, relay) :: rest =>
      match runDeferred (relayClose net s relay) rest with
      | (s', acts) => (s', AClose relayURL :: acts)
      end
  end.

Definition PublishEvent (event : Event) (signer : Keyer) (s : S)
  (relays : list string) : S * list Action :=
  match publishLoop event signer s relays [] with
  | (s', acts, deferred) =>
      match runDeferred s' deferred with
      | (s'', closes) => (s'', acts ++ closes)
      end
  end.

End Publish.

(** *** Proof of work *)

(** The value of a hexadecimal digit, in either case. *)
Definition hexVal (c : ascii) : option Z :=
  let n := Z.of_N (N_of_ascii c) in
  if (48 <=? n) && (n <=? 57) then Some (n - 48)
  else if (97 <=? n) && (n <=? 102) then Some (n - 87)
  else if (65 <=? n) && (n <=? 70) then Some (n - 55)
  else None.

(** Modelled from the spec: [nip13.Difficulty] belongs to go-nostr and is
    not part of the repository.  The number of leading zero bits of an
    identifier read as a big-endian bit string, four bits to a hexadecimal
    digit; counting stops at the first digit that is not zero. *)
Fixpoint Difficulty (id : string) : Z :=
  match id with
  | EmptyString => 0
  | String c rest =>
      match hexVal c with
      | Some v => if v =? 0 then 4 + Difficulty rest else 3 - Z.log2 v
      | None => 0
      end
  end.

(** The nonce tag: its name, the nonce and the target difficulty, both in
    decimal. *)
Definition nonceTag (nonce targetDifficulty : Z) : Tag :=
  ["nonce"; Itoa nonce; Itoa targetDifficulty].

(** Modelled from the spec: the search loop of [nip13.DoWork], which belongs
    to go-nostr and is not part of the repository.  The nonce is incremented,
    written into the nonce tag at the end of the tags of the event, the
    identifier is recomputed and its leading zero bits counted; the loop
    ends when the count reaches the target.  The loop has no bound of its
    own: [fuel] bounds the number of attempts and [None] means the bound was
    reached. *)
Fixpoint searchNonce (w : World) (fuel : nat) (event : Event)
  (targetDifficulty nonce : Z) : option Tag :=
  match fuel with
  | O => None
  | Datatypes.S fuel' =>
      let nonce' := nonce + 1 in
      let tag := nonceTag nonce' targetDifficulty in
      if targetDifficulty
           <=? Difficulty (GetID w (setTags event (Tags_ event ++ [tag])))
      then Some tag
      else searchNonce w fuel' event targetDifficulty nonce'
  end.

(** Modelled from the spec: [nip13.DoWork].  An internal fault is the only
    error; otherwise the search runs until it succeeds. *)
Definition DoWork (w : World) (fuel : nat) (event : Event)
  (targetDifficulty : Z) : option (result Tag) :=
  match workFault w event with
  | Some e => Some (Err e)
  | None =>
      match searchNonce w fuel event targetDifficulty 0 with
      | None => None
      | Some tag => Some (Ok tag)
      end
  end.

(** [Pow].  The Go function updates the event in place; here the stamped
    event is returned. *)
Definition Pow (w : World) (fuel : nat) (event : Event) (diff : Z)
  : option (result Event) :=
  if 0 <? diff then
    match DoWork w fuel event diff with
    | None => None
    | Some (Err err) =>
        Some (Err ("error generating proof of work: " +:+ err))
    | Some (Ok nounce) => Some (Ok (setTags event (Tags_ event ++ [nounce])))
    end
  else Some (Ok event).

(** *** signer.go *)

(** [ConvertNIP19ToHex]; the type assertion [decoded.(string)] panics on
    anything that is not a string. *)
Definition ConvertNIP19ToHex (w : World) (key : string) : run (result string) :=
  if HasPrefix key "nsec" then
    match nip19Decode w key with
    | Err err => Return (Err ("failed to decode NIP-19 key: " +:+ err))
    | Ok (_, decoded) =>
        match decoded with
        | AnyString s => Return (Ok s)
        | _ => Panic
        end
    end
  else Return (Ok key).

End Utils.

Export Utils.

(** ** cmd/nip71: video events *)

Module Nip71.

(** The command's flags (Go's package-level flag pointers). *)
Record Flags : Type := mkFlags {
  videoURL : string;
  videoFile : string;
  privateKey : string;
  title : string;
  description : string;
  publishedAt : string;
  relay : string;
  r : string;
  descriptor : string;
  blossom : string;
  diff : Z;
  isLegacy : bool
}.

Definition setVideoURL (f : Flags) (v : string) : Flags :=
  mkFlags v (videoFile f) (privateKey f) (title f) (description f)
    (publishedAt f) (relay f) (r f) (descriptor f) (blossom f) (diff f)
    (isLegacy f).

Definition setPrivateKey (f : Flags) (v : string) : Flags :=
  mkFlags (videoURL f) (videoFile f) v (title f) (description f)
    (publishedAt f) (relay f) (r f) (descriptor f) (blossom f) (diff f)
    (isLegacy f).

Definition setDescription (f : Flags) (v : string) : Flags :=
  mkFlags (videoURL f) (videoFile f) (privateKey f) (title f) v
    (publishedAt f) (relay f) (r f) (descriptor f) (blossom f) (diff f)
    (isLegacy f).

Definition setPublishedAt (f : Flags) (v : string) : Flags :=
  mkFlags (videoURL f) (videoFile f) (privateKey f) (title f) (description f)
    v (relay f) (r f) (descriptor f) (blossom f) (diff f) (isLegacy f).

(** [parseAndInitParams], after [flag.Parse]: the flags as given on the
    command line go in, the flags as initialised and the signer come out. *)
Definition parseAndInitParams (w : World) (f : Flags) : run (Flags * Keyer) :=
  let f := if String.eqb (description f) "" then setDescription f "" else f in
  let f :=
    if String.eqb (publishedAt f) ""
    then setPublishedAt f (Itoa (nowAtParse w)) else f in
  let decoded : run Flags :=
    if HasPrefix (privateKey f) "nsec" then
      match nip19Decode w (privateKey f) with
      | Err err => Fatalf ("Error decoding private key: " +:+ err)
      | Ok (_, decodedKey) =>
          match decodedKey with
          | AnyString key => Return (setPrivateKey f key)
          | _ => Fatalf "Error asserting type of decoded private key"
          end
      end
    else Return f in
  match decoded with
  | Fatalf msg => Fatalf msg
  | Panic => Panic
  | Return f =>
      match NewPlainKeySigner w (privateKey f) with
      | Err err => Fatalf ("Error creating signer: " +:+ err)
      | Ok signer => Return (f, signer)
      end
  end.

Definition loadRelays (w : World) (relayParam : string) : run (list string) :=
  if HasPrefix relayParam "ws://" || HasPrefix relayParam "wss://"
  then Return [relayParam]
  else
    match osStat w relayParam with
    | None => LoadRelaysFromFile w relayParam
    | Some _ => Return []
    end.

(** [createNip71Event].  The globals it reads ([isLegacy], [diff], the
    signer) are the flags [f] and [signer]. *)
Definition createNip71Event (w : World) (fuel : nat) (f : Flags)
  (signer : Keyer) (height width fileSize : Z)
  (videoHash bhash mime title publishedAt videoURL description descriptor
     : string)
  : option (result Event) :=
  let eventKind := if isLegacy f then 34235 else 21 in
  let alt := "Horizontal Video" in
  let '(eventKind, alt) :=
    if height >? width then (eventKind + 1, "Vertical Video")
    else (eventKind, alt) in
  let dTag := videoHash in
  let dTag := if negb (String.eqb descriptor "") then descriptor else dTag in
  match GetPublicKey signer with
  | Err err => Some (Err ("Error getting public key: " +:+ err))
  | Ok pubKey =>
      let event :=
        mkEvent "" pubKey (nowAtBuild w) eventKind
          [ ["alt"; alt];
            ["title"; title];
            ["published_at"; publishedAt];
            ["imeta";
             "url " +:+ videoURL;
             "m " +:+ mime;
             "alt " +:+ alt;
             "x " +:+ videoHash;
             "size " +:+ Itoa fileSize;
             "dim " +:+ Itoa width +:+ "x" +:+ Itoa height;
             "blurhash " +:+ bhash] ]
          description "" in
      let event :=
        if isLegacy f then setTags event (Tags_ event ++ [["d"; dTag]])
        else event in
      match Pow w fuel event (diff f) with
      | None => None
      | Some (Err err) =>
          Some (Err ("Error calculating proof of work: " +:+ err))
      | Some (Ok event) => Some (Ok event)
      end
  end.

(** The result of the media stage of [main]: the URL, the publish time and
    the local path of the video, and the temporary file whose removal was
    deferred, if the video was downloaded. *)
Definition fetchVideo (w : World) (f : Flags) (signer : Keyer)
  : run (Flags * string * option string) :=
  if negb (String.eqb (videoFile f) "") then
    match UploadFile w (blossom f) (videoFile f) signer with
    | Err err => Fatalf ("Error uploading video file: " +:+ err)
    | Ok uploadInfo =>
        match uploadInfo !! "url" with
        | Some (AnyString url) =>
            let f := setVideoURL f url in
            let f :=
              match uploadInfo !! "uploaded" with
              | Some (AnyFloat64 uploadedAt) => setPublishedAt f (Itoa uploadedAt)
              | _ => setPublishedAt f (Itoa (nowAfterUpload w))
              end in
            Return (f, videoFile f, None)
        | _ => Panic
        end
    end
  else
    match DownloadVideo w (videoURL f) with
    | Err err => Fatalf ("Error downloading video: " +:+ err)
    | Ok videoPath => Return (f, videoPath, Some videoPath)
    end.

Section Main.

Context {S Conn : Type} (net : Network S Conn).

(** [main]: the state of the network after the run, what was observed, and
    how the process ended; [None] when the proof of work did not end within
    [fuel] attempts.  A deferred removal of the downloaded file runs when
    [main] returns, not when [log.Fatalf] ends the process. *)
Definition main (w : World) (fuel : nat) (args : Flags) (s : S)
  : option (S * list Action * run unit) :=
  match parseAndInitParams w args with
  | Fatalf msg => Some (s, [], Fatalf msg)
  | Panic => Some (s, [], Panic)
  | Return (f, signer) =>
      if String.eqb (videoURL f) "" && String.eqb (videoFile f) ""
      then Some (s, [], Fatalf "Either -url or -file must be provided")
      else
        match fetchVideo w f signer with
        | Fatalf msg => Some (s, [], Fatalf msg)
        | Panic => Some (s, [], Panic)
        | Return (f, videoPath, temp) =>
            let cleanup : list Action :=
              match temp with Some path => [ARemove path] | None => [] end in
            match ValidateInput w (videoURL f) (title f) (publishedAt f) with
            | Some err =>
                Some (s, [], Fatalf ("Input validation error: " +:+ err))
            | None =>
                match ExtractMediaInfo w videoPath "video" with
                | Err err =>
                    Some (s, [],
                          Fatalf ("Error extracting video information: "
                                    +:+ err))
                | Ok info =>
                    match createNip71Event w fuel f signer
                            (height info) (width info) (fileSize info)
                            (fileHash info) (bhash info) (mime info)
                            (title f) (publishedAt f) (videoURL f)
                            (description f) (descriptor f) with
                    | None => None
                    | Some (Err err) =>
                        Some (s, [],
                              Fatalf ("Error creating NIP-71 event: " +:+ err))
                    | Some (Ok event) =>
                        match SignEvent signer event with
                        | Err err =>
                            Some (s, [],
                                  Fatalf ("Error signing event: " +:+ err))
                        | Ok event =>
                            let printed :=
                              [APrintln "Generated Event Data:" event] in
                            if negb (String.eqb (relay f) "")
                               || negb (String.eqb (r f) "")
                            then
                              match loadRelays w (relay f) with
                              | Fatalf msg => Some (s, printed, Fatalf msg)
                              | Panic => Some (s, printed, Panic)
                              | Return relays =>
                                  let relays' : run (list string) :=
                                    if (length relays =? 0)%nat
                                    then loadRelays w (r f)
                                    else Return relays in
                                  match relays' with
                                  | Fatalf msg => Some (s, printed, Fatalf msg)
                                  | Panic => Some (s, printed, Panic)
                                  | Return relays =>
                                      if (0 <? length relays)%nat then
                                        match PublishEvent net event signer s
                                                relays with
                                        | (s', acts) =>
                                            Some (s', printed ++ acts ++ cleanup,
                                                  Return tt)
                                        end
                                      else Some (s, printed ++ cleanup, Return tt)
                                  end
                              end
                            else Some (s, printed ++ cleanup, Return tt)
                        end
                    end
                end
            end
        end
  end.

End Main.

End Nip71.

(** ** The earlier variants of the video command

    [cmd/main.go] and the two earlier versions of [cmd/nip71/main.go] have
    one more step in [main], between fetching the video and validating the
    input, under the comment "Set title to videoURL if title is unset". *)

Module Nip71Earlier.

Definition setTitle (f : Nip71.Flags) (v : string) : Nip71.Flags :=
  Nip71.mkFlags (Nip71.videoURL f) (Nip71.videoFile f) (Nip71.privateKey f) v
    (Nip71.description f) (Nip71.publishedAt f) (Nip71.relay f) (Nip71.r f)
    (Nip71.descriptor f) (Nip71.blossom f) (Nip71.diff f) (Nip71.isLegacy f).

Definition defaultTitle (f : Nip71.Flags) : Nip71.Flags :=
  if String.eqb (Nip71.title f) "" then setTitle f (Nip71.videoURL f) else f.

End Nip71Earlier.

(** ** cmd/nip68: picture events *)

Module Nip68.

Record Flags : Type := mkFlags {
  imageURLs : list string;
  imageFiles : list string;
  privateKey : string;
  title : string;
  description : string;
  publishedAt : string;
  relay : string;
  r : string;
  blossom : string;
  diff : Z
}.

Definition setPrivateKey (f : Flags) (v : string) : Flags :=
  mkFlags (imageURLs f) (imageFiles f) v (title f) (description f)
    (publishedAt f) (relay f) (r f) (blossom f) (diff f).

Definition setDescription (f : Flags) (v : string) : Flags :=
  mkFlags (imageURLs f) (imageFiles f) (privateKey f) (title f) v
    (publishedAt f) (relay f) (r f) (blossom f) (diff f).

Definition setPublishedAt (f : Flags) (v : string) : Flags :=
  mkFlags (imageURLs f) (imageFiles f) (privateKey f) (title f)
    (description f) v (relay f) (r f) (blossom f) (diff f).

Definition parseAndInitParams (w : World) (f : Flags) : run (Flags * Keyer) :=
  let f := if String.eqb (description f) "" then setDescription f "" else f in
  let f :=
    if String.eqb (publishedAt f) ""
    then setPublishedAt f (Itoa (nowAtParse w)) else f in
  let decoded : run Flags :=
    if HasPrefix (privateKey f) "nsec" then
      match nip19Decode w (privateKey f) with
      | Err err => Fatalf ("Error decoding private key: " +:+ err)
      | Ok (_, decodedKey) =>
          match decodedKey with
          | AnyString key => Return (setPrivateKey f key)
          | _ => Fatalf "Error asserting type of decoded private key"
          end
      end
    else Return f in
  match decoded with
  | Fatalf msg => Fatalf msg
  | Panic => Panic
  | Return f =>
      match NewPlainKeySigner w (privateKey f) with
      | Err err => Fatalf ("Error creating event signer: " +:+ err)
      | Ok signer => Return (f, signer)
      end
  end.

Definition loadRelays (w : World) (relayParam : string) : run (list string) :=
  if HasPrefix relayParam "ws://" || HasPrefix relayParam "wss://"
  then Return [relayParam]
  else
    match osStat w relayParam with
    | None => LoadRelaysFromFile w relayParam
    | Some _ => Return []
    end.

(** [addImageIMetaTag]; the file size is ignored. *)
Definition addImageIMetaTag (w : World) (imagePath imageURL : string)
  : run Tag :=
  match ExtractMediaInfo w imagePath "image" with
  | Err err => Fatalf ("Error extracting image information: " +:+ err)
  | Ok info =>
      Return
        ["imeta";
         "url " +:+ imageURL;
         "x " +:+ fileHash info;
         "dim " +:+ Itoa (width info) +:+ "x" +:+ Itoa (height info);
         "m " +:+ mime info;
         "blurhash " +:+ bhash info]
  end.

Definition createNip68Event (w : World) (fuel : nat) (f : Flags)
  (signer : Keyer) (imetaTags : Tags) (title publishedAt description : string)
  : option (result Event) :=
  let eventKind := 20 in
  let tags : Tags := [ ["title"; title]; ["published_at"; publishedAt] ] in
  let tags := fold_left (fun tags imeta => tags ++ [imeta]) imetaTags tags in
  match GetPublicKey signer with
  | Err err => Some (Err ("Error getting public key: " +:+ err))
  | Ok pubKey =>
      let event :=
        mkEvent "" pubKey (nowAtBuild w) eventKind tags description "" in
      match Pow w fuel event (diff f) with
      | None => None
      | Some (Err err) =>
          Some (Err ("Error calculating proof of work: " +:+ err))
      | Some (Ok event) => Some (Ok event)
      end
  end.

(** The first loop of [main]: every file is uploaded and fingerprinted. *)
Fixpoint uploadImages (w : World) (signer : Keyer) (f : Flags)
  (files : list string) (imetaTags : Tags) : run (Flags * Tags) :=
  match files with
  | [] => Return (f, imetaTags)
  | imageFile :: rest =>
      match UploadFile w (blossom f) imageFile signer with
      | Err err => Fatalf ("Error uploading image file: " +:+ err)
      | Ok uploadInfo =>
          match uploadInfo !! "url" with
          | Some (AnyString imageURL) =>
              let f :=
                match uploadInfo !! "uploaded" with
                | Some (AnyFloat64 uploadedAt) =>
                    setPublishedAt f (Itoa uploadedAt)
                | _ => setPublishedAt f (Itoa (nowAfterUpload w))
                end in
              match addImageIMetaTag w imageFile imageURL with
              | Fatalf msg => Fatalf msg
              | Panic => Panic
              | Return tag => uploadImages w signer f rest (imetaTags ++ [tag])
              end
          | _ => Panic
          end
      end
  end.

(** The second loop of [main]: every URL is downloaded and fingerprinted;
    the removals of the downloaded files are deferred, the latest first. *)
Fixpoint downloadImages (w : World) (urls : list string) (imetaTags : Tags)
  (deferred : list Action) : run (Tags * list Action) :=
  match urls with
  | [] => Return (imetaTags, deferred)
  | imageURL :: rest =>
      match DownloadVideo w imageURL with
      | Err err => Fatalf ("Error downloading image: " +:+ err)
      | Ok imagePath =>
          match addImageIMetaTag w imagePath imageURL with
          | Fatalf msg => Fatalf msg
          | Panic => Panic
          | Return tag =>
              downloadImages w rest (imetaTags ++ [tag])
                (ARemove imagePath :: deferred)
          end
      end
  end.

Section Main.

Context {S Conn : Type} (net : Network S Conn).

Definition main (w : World) (fuel : nat) (args : Flags) (s : S)
  : option (S * list Action * run unit) :=
  match parseAndInitParams w args with
  | Fatalf msg => Some (s, [], Fatalf msg)
  | Panic => Some (s, [], Panic)
  | Return (f, signer) =>
      if (length (imageURLs f) =? 0)%nat && (length (imageFiles f) =? 0)%nat
      then Some (s, [], Fatalf "At least one -url or -file must be provided")
      else
        match uploadImages w signer f (imageFiles f) [] with
        | Fatalf msg => Some (s, [], Fatalf msg)
        | Panic => Some (s, [], Panic)
        | Return (f, imetaTags) =>
            match downloadImages w (imageURLs f) imetaTags [] with
            | Fatalf msg => Some (s, [], Fatalf msg)
            | Panic => Some (s, [], Panic)
            | Return (imetaTags, cleanup) =>
                match createNip68Event w fuel f signer imetaTags (title f)
                        (publishedAt f) (description f) with
                | None => None
                | Some (Err err) =>
                    Some (s, [],
                          Fatalf ("Error creating NIP-68 event: " +:+ err))
                | Some (Ok event) =>
                    match SignEvent signer event with
                    | Err err =>
                        Some (s, [], Fatalf ("Error signing event: " +:+ err))
                    | Ok event =>
                        let printed :=
                          [APrintln "Generated Event Data:" event] in
                        if negb (String.eqb (relay f) "")
                           || negb (String.eqb (r f) "")
                        then
                          match loadRelays w (relay f) with
                          | Fatalf msg => Some (s, printed, Fatalf msg)
                          | Panic => Some (s, printed, Panic)
                          | Return relays =>
                              let relays' : run (list string) :=
                                if (length relays =? 0)%nat
                                then loadRelays w (r f)
                                else Return relays in
                              match relays' with
                              | Fatalf msg => Some (s, printed, Fatalf msg)
                              | Panic => Some (s, printed, Panic)
                              | Return relays =>
                                  if (0 <? length relays)%nat then
                                    match PublishEvent net event signer s
                                            relays with
                                    | (s', acts) =>
                                        Some (s', printed ++ acts ++ cleanup,
                                              Return tt)
                                    end
                                  else
                                    Some (s, printed,
                                          Fatalf
                                            ("No relays found to publish the event. Relay parameter: "
                                               +:+ relay f))
                              end
                          end
                        else Some (s, printed ++ cleanup, Return tt)
                    end
                end
            end
        end
  end.

End Main.

End Nip68.

(** ** Observations on events and traces *)

Module Observe.

(** The value of the first tag with the given name. *)
Fixpoint tagValue (name : string) (tags : Tags) : option string :=
  match tags with
  | [] => None
  | tag :: rest =>
      match tag with
      | n :: v :: _ => if String.eqb n name then Some v else tagValue name rest
      | _ => tagValue name rest
      end
  end.

Definition tagName (tag : Tag) : string :=
  match tag with
  | n :: _ => n
  | [] => ""
  end.

(** The key of a [key value] sub-entry of an [imeta] tag: what stands before
    the first space. *)
Fixpoint entryKey (entry : string) : string :=
  match entry with
  | EmptyString => EmptyString
  | String c rest =>
      if Ascii.eqb c " "%char then EmptyString else String c (entryKey rest)
  end.

Definition entryKeys (tag : Tag) : list string :=
  match tag with
  | _ :: entries => map entryKey entries
  | [] => []
  end.


Definition imageKeys : list string :=
  ["url"; "x"; "dim"; "m"; "blurhash"].

(** An [imeta] tag in the shape [addImageIMetaTag] gives it. *)
Definition pictureTag (tag : Tag) : Prop :=
  tagName tag = "imeta" /\ entryKeys tag = imageKeys.

(** Counting what was sent to relays. *)
Definition isAuth (a : Action) : bool :=
  match a with AAuth _ => true | _ => false end.

Definition isPublish (a : Action) : bool :=
  match a with APublish _ _ => true | _ => false end.

Definition countAuth (acts : list Action) : nat :=
  length (filter (fun a => isAuth a = true) acts).

Definition countPublish (acts : list Action) : nat :=
  length (filter (fun a => isPublish a = true) acts).

(** The relays dialed, in order. *)
Fixpoint dialed (acts : list Action) : list string :=
  match acts with
  | [] => []
  | AConnect relayURL :: rest => relayURL :: dialed rest
  | _ :: rest => dialed rest
  end.

(** An action on the relay network. *)
Definition isRelayAction (a : Action) : bool :=
  match a with
  | AConnect _ | APublish _ _ | AAuth _ | AClose _ => true
  | _ => false
  end.

(** The line that prints the event. *)
Definition isPrintln (a : Action) : bool :=
  match a with APrintln _ _ => true | _ => false end.

(** A line on the error log. *)
Definition isLogLine (a : Action) : bool :=
  match a with ALogPrintf _ => true | _ => false end.

(** A relay parameter that resolves to no relay: neither a [ws://] or
    [wss://] URI nor the path of an existing file. *)
Definition unresolvable (w : World) (relayParam : string) : Prop :=
  HasPrefix relayParam "ws://" = false /\
  HasPrefix relayParam "wss://" = false /\
  osStat w relayParam <> None.

(** The event a nonce is tried on: the nonce tag stands after all tags. *)
Definition stamped (event : Event) (nonce d : Z) : Event :=
  setTags event (Tags_ event ++ [nonceTag nonce d]).

(** The bits of an identifier, the most significant first, four to each
    hexadecimal digit; a character that is no digit ends the identifier. *)
Fixpoint idBits (id : string) : list bool :=
  match id with
  | EmptyString => []
  | String c rest =>
      match hexVal c with
      | Some v =>
          Z.testbit v 3 :: Z.testbit v 2 :: Z.testbit v 1 :: Z.testbit v 0
            :: idBits rest
      | None => []
      end
  end.

End Observe.

Export Observe.

(** ** A small concrete world, for running the commands *)

Module Scenario.

(** An identifier function for examples: eight leading zero bits once the
    last tag is the nonce 3, none otherwise. *)
Definition toyID (e : Event) : string :=
  match List.last (Tags_ e) [] with
  | [name; nonce; _] =>
      if String.eqb name "nonce" && String.eqb nonce "3"
      then "00ff" else "8000"
  | _ => "ffff"
  end.

Definition signer : Keyer :=
  mkKeyer (Ok "pubkey")
    (fun e => Ok ("id-of-" +:+ Itoa (Kind e), "pubkey", "signature")).

(** The world around the examples: every file holds [bytes], and [doer] is
    the HTTP client. *)
Definition worldWith (bytes : string) (doer : Request -> result Response)
  : World :=
  mkWorld
    (fun path =>
       if String.eqb path "relays.json"
       then Err "no such file or directory"
       else Ok (mkFile bytes None (Ok (Z.of_nat (String.length bytes)))))
    (fun _ => Some "no such file or directory")
    (Ok "/tmp/video-1.mp4")
    "/tmp"
    (fun _ _ => None)
    (fun bytes => bytes)
    (fun s => s)
    (fun _ => Ok "event-json")
    (fun body =>
       if String.eqb body "descriptor"
       then Ok {[ "url" := AnyString "https://cdn.example/data" ]}
       else Err "invalid character")
    (fun _ => Err "invalid character")
    (fun url =>
       if HasPrefix url "https://" then None
       else Some "invalid URI for request")
    (fun _ _ => None)
    doer
    (fun _ => Ok (mkResponse 200 "200 OK" "bytes"))
    (fun head =>
       if HasPrefix head "data" then Ok "video/mp4"
       else if HasPrefix head "JPEG" then Ok "image/jpeg"
       else Ok "")
    (fun _ => Err "invalid bech32 string")
    (fun _ => Ok signer)
    toyID
    (fun _ => None)
    (fun _ => Ok (1080, 1920))
    (fun _ _ _ => Ok "LKO2")
    (fun _ _ => None)
    1700000000 1700000001 1700000002 1700000003 1700000004.

(** The storage endpoint answers 200 with a descriptor. *)
Definition world : World :=
  worldWith "data" (fun _ => Ok (mkResponse 200 "200 OK" "descriptor")).

(** The same, with picture files. *)
Definition imageWorld : World :=
  worldWith "JPEGdata" (fun _ => Ok (mkResponse 200 "200 OK" "descriptor")).

(** The storage endpoint answers 200 with a body that is not JSON. *)
Definition worldBadBody : World :=
  worldWith "data" (fun _ => Ok (mkResponse 200 "200 OK" "oops")).

(** A relay network: the state is the list of connections that have
    authenticated.  Relays named [wss://down...] refuse connections, relays
    named [wss://auth...] ask for authentication before they accept an
    event, and those named [wss://authfail...] reject the authentication. *)
Definition network : Network (list string) string :=
  mkNetwork
    (fun s relayURL =>
       if HasPrefix relayURL "wss://down" then (s, Err "connection refused")
       else (s, Ok relayURL))
    (fun s relay _ =>
       if HasPrefix relay "wss://auth" && negb (existsb (String.eqb relay) s)
       then (s, Some "msg: auth-required: please authenticate")
       else (s, None))
    (fun s relay _ =>
       if HasPrefix relay "wss://authfail" then (s, Some "auth rejected")
       else (relay :: s, None))
    (fun s _ => s).

(** A video given by URL, no title, a relay parameter that is neither a
    relay URI nor a file. *)
Definition videoFlags : Nip71.Flags :=
  Nip71.mkFlags "https://example.com/v.mp4" "" "hexkey" "" "" "" "nowhere" ""
    "" "https://cdn.nostrcheck.me" 8 false.

Definition legacyFlags (descriptor : string) : Nip71.Flags :=
  Nip71.mkFlags "https://example.com/v.mp4" "" "hexkey" "" "" "" "" ""
    descriptor "https://cdn.nostrcheck.me" 8 true.

Definition imageFlags : Nip68.Flags :=
  Nip68.mkFlags ["https://example.com/cat.jpg"] [] "hexkey" "" "" "" "" ""
    "https://cdn.nostrcheck.me" 8.

Definition someEvent : Event :=
  mkEvent "" "pubkey" 1700000004 21 [["title"; "t"]] "" "".

End Scenario.

(** ** internal/utils: hashtags *)

Module Hashtags.

(** The class [\w] of Go's regular expressions: an ASCII letter, a digit or
    the underscore. *)
Definition isWordChar (c : ascii) : bool :=
  let n := Z.of_N (N_of_ascii c) in
  ((48 <=? n) && (n <=? 57)) || ((65 <=? n) && (n <=? 90))
  || ((97 <=? n) && (n <=? 122)) || (n =? 95).

Definition isHash (c : ascii) : bool := Ascii.eqb c "#"%char.

(** What a finished run of word characters after a [#] gives: a match when
    the run is not empty. *)
Definition emit (word : string) : list string :=
  if String.eqb word "" then [] else ["#" +:+ word].

(** [re.FindAllString(text, -1)] for the expression [#\w+]: the successive
    matches, leftmost first, each as long as it can be.  [cur] is the run of
    word characters read since the last [#], when the scan stands right
    after one. *)
Fixpoint findHashtags (text : string) (cur : option string) : list string :=
  match text with
  | EmptyString =>
      match cur with
      | Some word => emit word
      | None => []
      end
  | String c rest =>
      match cur with
      | Some word =>
          if isWordChar c
          then findHashtags rest (Some (word +:+ String c EmptyString))
          else emit word
                 ++ findHashtags rest (if isHash c then Some "" else None)
      | None => findHashtags rest (if isHash c then Some "" else None)
      end
  end.

Fixpoint stripPrefix (prefix s : string) : option string :=
  match prefix with
  | EmptyString => Some s
  | String a prefix' =>
      match s with
      | String b s' => if Ascii.eqb a b then stripPrefix prefix' s' else None
      | EmptyString => None
      end
  end.

(** [strings.TrimPrefix(s, prefix)]. *)
Definition TrimPrefix (s prefix : string) : string :=
  match stripPrefix prefix s with
  | Some rest => rest
  | None => s
  end.

(** [ExtractHashtags]; the Go function appends to the tags of the event in
    place, here the event with its new tags is returned. *)
Definition ExtractHashtags (event : Event) : Event :=
  if String.eqb (Content event) "" then event
  else
    let tags := findHashtags (Content event) None in
    fold_left
      (fun ev tag => setTags ev (Tags_ ev ++ [["t"; TrimPrefix tag "#"]]))
      tags event.

End Hashtags.

Export Hashtags.

(** ** The last stage of the commands

    What [main] does once the event is signed: it prints the event, resolves
    the relay parameters and publishes.  These are the last lines of the two
    [main] functions, set apart so that they can be spoken of. *)

Module Stages.

Section Stage.

Context {S Conn : Type} (net : Network S Conn).

(** [cmd/nip71/main.go], from "Output the event data" to the end. *)
Definition videoPublishStage (w : World) (f : Nip71.Flags) (signer : Keyer)
  (event : Event) (cleanup : list Action) (s : S)
  : S * list Action * run unit :=
  let printed := [APrintln "Generated Event Data:" event] in
  if negb (String.eqb (Nip71.relay f) "") || negb (String.eqb (Nip71.r f) "")
  then
    match Nip71.loadRelays w (Nip71.relay f) with
    | Fatalf msg => (s, printed, Fatalf msg)
    | Panic => (s, printed, Panic)
    | Return relays =>
        let relays' : run (list string) :=
          if (length relays =? 0)%nat
          then Nip71.loadRelays w (Nip71.r f)
          else Return relays in
        match relays' with
        | Fatalf msg => (s, printed, Fatalf msg)
        | Panic => (s, printed, Panic)
        | Return relays =>
            if (0 <? length relays)%nat then
              match PublishEvent net event signer s relays with
              | (s', acts) => (s', printed ++ acts ++ cleanup, Return tt)
              end
            else (s, printed ++ cleanup, Return tt)
        end
    end
  else (s, printed ++ cleanup, Return tt).

(** [cmd/nip68/main.go], from "Output the event data" to the end. *)
Definition picturePublishStage (w : World) (f : Nip68.Flags) (signer : Keyer)
  (event : Event) (cleanup : list Action) (s : S)
  : S * list Action * run unit :=
  let printed := [APrintln "Generated Event Data:" event] in
  if negb (String.eqb (Nip68.relay f) "") || negb (String.eqb (Nip68.r f) "")
  then
    match Nip68.loadRelays w (Nip68.relay f) with
    | Fatalf msg => (s, printed, Fatalf msg)
    | Panic => (s, printed, Panic)
    | Return relays =>
        let relays' : run (list string) :=
          if (length relays =? 0)%nat
          then Nip68.loadRelays w (Nip68.r f)
          else Return relays in
        match relays' with
        | Fatalf msg => (s, printed, Fatalf msg)
        | Panic => (s, printed, Panic)
        | Return relays =>
            if (0 <? length relays)%nat then
              match PublishEvent net event signer s relays with
              | (s', acts) => (s', printed ++ acts ++ cleanup, Return tt)
              end
            else
              (s, printed,
               Fatalf
                 ("No relays found to publish the event. Relay parameter: "
                    +:+ Nip68.relay f))
        end
    end
  else (s, printed ++ cleanup, Return tt).

End Stage.

End Stages.

Export Stages.

(** ** More observations on traces *)

Module Trace.

(** The relays whose connection was closed, in order. *)
Fixpoint closed (acts : list Action) : list string :=
  match acts with
  | [] => []
  | AClose relayURL :: rest => relayURL :: closed rest
  | _ :: rest => closed rest
  end.

(** The relays an event was sent to, one entry for each attempt. *)
Fixpoint publishedTo (acts : list Action) : list string :=
  match acts with
  | [] => []
  | APublish relayURL _ :: rest => relayURL :: publishedTo rest
  | _ :: rest => publishedTo rest
  end.

(** The files removed, in order. *)
Fixpoint removed (acts : list Action) : list string :=
  match acts with
  | [] => []
  | ARemove path :: rest => path :: removed rest
  | _ :: rest => removed rest
  end.

(** The number of [#] in a text. *)
Fixpoint countHash (text : string) : nat :=
  match text with
  | EmptyString => O
  | String c rest => ((if isHash c then 1 else 0) + countHash rest)%nat
  end.

(** A word in the sense of [\w+]: not empty, word characters only. *)
Fixpoint allWordChars (word : string) : bool :=
  match word with
  | EmptyString => true
  | String c rest => isWordChar c && allWordChars rest
  end.

Definition isWord (word : string) : Prop :=
  word <> "" /\ allWordChars word = true.

(** The [imeta] tags of an event, in order. *)
Definition imetaTags (tags : Tags) : Tags :=
  filter (fun tag => tagName tag = "imeta") tags.

End Trace.

Export Trace.

(** ** More of the concrete world *)

Module Scenario2.

Import Scenario.

(** A relay given with [-relay], another with [-r]. *)
Definition relayFlags : Nip71.Flags :=
  Nip71.mkFlags "https://example.com/v.mp4" "" "hexkey" "My video" "" ""
    "wss://ok.example" "wss://other.example" "" "https://cdn.nostrcheck.me" 8
    false.

(** Only [-r] resolves. *)
Definition shortFlags : Nip71.Flags :=
  Nip71.mkFlags "https://example.com/v.mp4" "" "hexkey" "My video" "" ""
    "nowhere" "wss://other.example" "" "https://cdn.nostrcheck.me" 8 false.

(** No relay flag at all. *)
Definition quietFlags : Nip71.Flags :=
  Nip71.mkFlags "https://example.com/v.mp4" "" "hexkey" "My video" "" "" ""
    "" "" "https://cdn.nostrcheck.me" 8 false.

(** A local file to upload, with a URL and a publish time that the upload
    overrides. *)
Definition fileFlags : Nip71.Flags :=
  Nip71.mkFlags "https://example.com/other.mp4" "video.mp4" "hexkey" "" ""
    "12345" "" "" "" "https://cdn.nostrcheck.me" 8 false.

(** Neither a file nor a URL. *)
Definition emptyFlags : Nip71.Flags :=
  Nip71.mkFlags "" "" "hexkey" "" "" "" "wss://ok.example" "" ""
    "https://cdn.nostrcheck.me" 8 false.

(** A picture command with a relay parameter that resolves to nothing. *)
Definition pictureNowhereFlags : Nip68.Flags :=
  Nip68.mkFlags ["https://example.com/cat.jpg"; "https://example.com/dog.jpg"]
    [] "hexkey" "" "" "" "nowhere" "" "https://cdn.nostrcheck.me" 8.

(** A world whose storage endpoint answers with a descriptor that has no
    [url]. *)
Definition worldNoURL : World :=
  let w := worldWith "data" (fun _ => Ok (mkResponse 200 "200 OK" "{}")) in
  mkWorld (osOpen w) (osStat w) (osCreateTemp w) (osTempDir w)
    (ioCopyToFile w) (sha256Sum w) (base64Encode w) (jsonMarshal w)
    (fun _ => Ok ∅) (jsonDecodeStrings w) (ParseRequestURI w) (NewRequest w)
    (clientDo w) (httpGet w) (filetypeMatch w) (nip19Decode w)
    (NewPlainKeySigner w) (GetID w) (workFault w) (imageDecode w)
    (blurhashEncode w) (ffmpegFrame w) (nowAtParse w) (nowAtUpload w)
    (nowAtAuthEvent w) (nowAfterUpload w) (nowAtBuild w).


(** A relay network that never asks for authentication: every relay
    accepts the connection and turns the event down as rate limited. *)
Definition busyNetwork : Network unit string :=
  mkNetwork
    (fun s relayURL => (s, Ok relayURL))
    (fun s _ _ => (s, Some "rate-limited: slow down"))
    (fun s _ _ => (s, None))
    (fun s _ => s).



(** Picture flags with a publish time that is no number. *)
Definition pictureDatedFlags : Nip68.Flags :=
  Nip68.mkFlags ["https://example.com/cat.jpg"] [] "hexkey" "" "" "yesterday"
    "" "" "https://cdn.nostrcheck.me" 8.

Definition taggedEvent : Event :=
  mkEvent "" "pubkey" 1700000004 1 [["title"; "t"]]
    "Sunset #nostr ##x #go_lang! # #42" "".

End Scenario2.

(** * Properties *)

Import Scenario.
Import Scenario2.

(** ** Proof of work *)

Section PowFacts.

Variable w : World.

Lemma searchNonce_sound fuel event d :
  forall nonce tag,
    searchNonce w fuel event d nonce = Some tag ->
    exists k,
      nonce < k <= nonce + Z.of_nat fuel /\
      tag = nonceTag k d /\
      d <= Difficulty (GetID w (stamped event k d)) /\
      forall j, nonce < j < k -> Difficulty (GetID w (stamped event j d)) < d.
Proof.
  induction fuel as [|fuel IH]; intros nonce tag Hs; simpl in Hs.
  - discriminate.
  - destruct (d <=? Difficulty
                      (GetID w (setTags event
                                  (Tags_ event ++ [nonceTag (nonce + 1) d]))))
      eqn:Hle.
    + injection Hs as <-. exists (nonce + 1). repeat split; try lia.
      * apply Z.leb_le in Hle. exact Hle.
    + apply IH in Hs as (k & Hk & -> & Hd & Hleast).
      exists k. repeat split; try lia; try assumption.
      intros j Hj. destruct (Z.eq_dec j (nonce + 1)) as [->|Hne].
      * apply Z.leb_gt in Hle. exact Hle.
      * apply Hleast. lia.
Qed.

Lemma searchNonce_exhausted fuel event d :
  forall nonce,
    searchNonce w fuel event d nonce = None ->
    forall j, nonce < j <= nonce + Z.of_nat fuel ->
              Difficulty (GetID w (stamped event j d)) < d.
Proof.
  induction fuel as [|fuel IH]; intros nonce Hs j Hj; simpl in Hs.
  - lia.
  - destruct (d <=? Difficulty
                      (GetID w (setTags event
                                  (Tags_ event ++ [nonceTag (nonce + 1) d]))))
      eqn:Hle; [discriminate|].
    destruct (Z.eq_dec j (nonce + 1)) as [->|Hne].
    + apply Z.leb_gt in Hle. exact Hle.
    + apply (IH _ Hs). lia.
Qed.

(** With enough fuel the search ends: a nonce that meets the target is
    found as soon as the bound reaches it. *)
Lemma searchNonce_complete fuel event d nonce k :
  nonce < k <= nonce + Z.of_nat fuel ->
  d <= Difficulty (GetID w (stamped event k d)) ->
  exists tag, searchNonce w fuel event d nonce = Some tag.
Proof.
  intros Hk Hd.
  destruct (searchNonce w fuel event d nonce) as [tag|] eqn:Hs.
  - eauto.
  - pose proof (searchNonce_exhausted _ _ _ _ Hs k Hk). lia.
Qed.

Lemma Pow_inv fuel event d event' :
  Pow w fuel event d = Some (Ok event') ->
  (d <= 0 /\ event' = event) \/
  (0 < d /\ workFault w event = None /\
   exists nonce, 0 < nonce <= Z.of_nat fuel /\
                 event' = stamped event nonce d /\
                 d <= Difficulty (GetID w event')).
Proof.
  unfold Pow, DoWork. destruct (0 <? d) eqn:Hd.
  - apply Z.ltb_lt in Hd. destruct (workFault w event); [discriminate|].
    destruct (searchNonce w fuel event d 0) as [tag|] eqn:Hs; [|discriminate].
    intros [= <-]. right. apply searchNonce_sound in Hs as (k & Hk & -> & Hk' & _).
    repeat split; try assumption. exists k. repeat split; try lia. exact Hk'.
  - apply Z.ltb_ge in Hd. intros [= <-]. left. split; [lia|reflexivity].
Qed.

(** Stamping leaves everything but the tags alone, and adds at most one tag
    at the end. *)
Lemma Pow_fields fuel event d event' :
  Pow w fuel event d = Some (Ok event') ->
  Kind event' = Kind event /\ PubKey event' = PubKey event /\
  Content event' = Content event /\ CreatedAt event' = CreatedAt event /\
  (Tags_ event' = Tags_ event \/
   exists nonce, Tags_ event' = Tags_ event ++ [nonceTag nonce d]).
Proof.
  intros H. apply Pow_inv in H as [[_ ->]|(_ & _ & nonce & _ & -> & _)].
  - repeat split; auto.
  - repeat split; simpl; eauto.
Qed.

End PowFacts.

(** The count of leading zero bits means what it says: below the count,
    every bit of the identifier is zero. *)
Lemma hexVal_range c v : hexVal c = Some v -> 0 <= v < 16.
Proof.
  unfold hexVal. intros H.
  repeat match type of H with
         | (if ?b then _ else _) = _ => destruct b eqn:?
         end; inversion H; subst; lia.
Qed.

Lemma Difficulty_nonneg id : 0 <= Difficulty id.
Proof.
  induction id as [|c rest IH]; simpl; [lia|].
  destruct (hexVal c) as [v|] eqn:Hv; [|lia].
  apply hexVal_range in Hv. destruct (v =? 0) eqn:Hz; [lia|].
  apply Z.eqb_neq in Hz.
  assert (Z.log2 v < 4) by (apply Z.log2_lt_pow2; lia). lia.
Qed.

Lemma Difficulty_bits id :
  forall i, (Z.of_nat i < Difficulty id) -> nth i (idBits id) true = false.
Proof.
  induction id as [|c rest IH]; intros i Hi; simpl in *; [lia|].
  destruct (hexVal c) as [v|] eqn:Hv; [|lia].
  apply hexVal_range in Hv.
  assert (Hcases : v = 0 \/ v = 1 \/ v = 2 \/ v = 3 \/ v = 4 \/ v = 5 \/ v = 6
                   \/ v = 7 \/ v = 8 \/ v = 9 \/ v = 10 \/ v = 11 \/ v = 12
                   \/ v = 13 \/ v = 14 \/ v = 15) by lia.
  destruct Hcases as [->|Hcases].
  - simpl in Hi. destruct i as [|[|[|[|i]]]]; try reflexivity.
    simpl. apply IH. lia.
  - repeat (destruct Hcases as [->|Hcases]);
      try subst v; cbn in Hi;
      destruct i as [|[|[|[|i]]]]; try reflexivity; try lia.
Qed.

Example Difficulty_examples :
  Difficulty "00ff" = 8 /\ Difficulty "0f" = 4 /\ Difficulty "1f" = 3 /\
  Difficulty "002a" = 10 /\ Difficulty "8000" = 0 /\ Difficulty "" = 0.
Proof. repeat split. Qed.

(** With no fault and a nonce that meets the target, [Pow] returns as soon
    as the bound on attempts reaches that nonce. *)
Lemma Pow_terminates w fuel event d k :
  workFault w event = None ->
  0 < k <= Z.of_nat fuel ->
  d <= Difficulty (GetID w (stamped event k d)) ->
  exists event', Pow w fuel event d = Some (Ok event').
Proof.
  intros Hfault Hk Hd. unfold Pow, DoWork. rewrite Hfault.
  destruct (0 <? d); [|eauto].
  destruct (searchNonce_complete w fuel event d 0 k) as [tag ->]; eauto.
Qed.

(** C2: for a target difficulty [d > 0], whenever the proof-of-work
    operation returns the stamped event, the tags are the old ones followed
    by the winning nonce tag, which is therefore the last tag, and the
    identifier of the stamped event has at least [d] leading zero bits; for
    [d <= 0] the operation returns at once with the event, tags included,
    unchanged. *)
Theorem C2_pow_stamps_or_skips :
  forall (w : World) (fuel : nat) (event : Event) (d : Z),
    (d > 0 ->
     forall event',
       Pow w fuel event d = Some (Ok event') ->
       exists nonce,
         Tags_ event' = Tags_ event ++ [nonceTag nonce d] /\
         List.last (Tags_ event') [] = nonceTag nonce d /\
         d <= Difficulty (GetID w event')) /\
    (d <= 0 -> Pow w fuel event d = Some (Ok event)).
Proof.
  intros w fuel event d. split.
  - intros Hd event' Hpow.
    apply Pow_inv in Hpow as [[Hle _]|(_ & _ & nonce & _ & -> & Hdiff)]; [lia|].
    exists nonce. simpl. repeat split.
    + apply List.last_last.
    + exact Hdiff.
  - intros Hd. unfold Pow.
    destruct (0 <? d) eqn:Hlt; [apply Z.ltb_lt in Hlt; lia|reflexivity].
Qed.

Lemma C2_pow_witness :
  (exists event',
     Pow world 10 someEvent 8 = Some (Ok event') /\
     exists nonce,
       Tags_ event' = Tags_ someEvent ++ [nonceTag nonce 8] /\
       List.last (Tags_ event') [] = nonceTag nonce 8 /\
       8 <= Difficulty (GetID world event')) /\
  Pow world 0 someEvent 0 = Some (Ok someEvent).
Proof.
  split.
  - eexists. split; [vm_compute; reflexivity|].
    apply (proj1 (C2_pow_stamps_or_skips world 10 someEvent 8)); [lia|].
    vm_compute. reflexivity.
  - apply (proj2 (C2_pow_stamps_or_skips world 0 someEvent 0)). lia.
Defined.

(** ** Event kinds *)

(** C1: a video event built in current mode has kind 22 when the height
    exceeds the width and kind 21 otherwise; built in legacy mode it has
    kind 34236 when the height exceeds the width and 34235 otherwise; a
    picture event has kind 20 whatever its pictures are. *)
Theorem C1_kind_follows_orientation :
  (forall w fuel f signer height width fileSize videoHash bhash mime title
          publishedAt videoURL description descriptor event,
      Nip71.createNip71Event w fuel f signer height width fileSize videoHash
        bhash mime title publishedAt videoURL description descriptor
      = Some (Ok event) ->
      (Nip71.isLegacy f = false -> height > width -> Kind event = 22) /\
      (Nip71.isLegacy f = false -> height <= width -> Kind event = 21) /\
      (Nip71.isLegacy f = true -> height > width -> Kind event = 34236) /\
      (Nip71.isLegacy f = true -> height <= width -> Kind event = 34235)) /\
  (forall w fuel f signer imetaTags title publishedAt description event,
      Nip68.createNip68Event w fuel f signer imetaTags title publishedAt
        description = Some (Ok event) ->
      Kind event = 20).
Proof.
  split.
  - intros w fuel f signer height width fileSize videoHash bhash mime title
      publishedAt videoURL description descriptor event H.
    unfold Nip71.createNip71Event in H.
    destruct (Z.gtb_spec height width) as [Hgt|Hle];
      destruct (Nip71.isLegacy f); simpl in H;
      (destruct (GetPublicKey signer) as [pubKey|]; [|discriminate]);
      match type of H with
      | match Pow ?w ?fuel ?e ?d with _ => _ end = _ =>
          destruct (Pow w fuel e d) as [[e'|]|] eqn:Hpow; try discriminate;
          apply Pow_fields in Hpow as (Hkind & _)
      end;
      injection H as <-; rewrite Hkind; simpl;
      repeat split; intros; try reflexivity; try discriminate; lia.
  - intros w fuel f signer imetaTags title publishedAt description event H.
    unfold Nip68.createNip68Event in H.
    destruct (GetPublicKey signer) as [pubKey|]; [|discriminate].
    match type of H with
    | match Pow ?w ?fuel ?e ?d with _ => _ end = _ =>
        destruct (Pow w fuel e d) as [[e'|]|] eqn:Hpow; try discriminate;
        apply Pow_fields in Hpow as (Hkind & _)
    end.
    injection H as <-. rewrite Hkind. reflexivity.
Qed.

Lemma C1_kind_witness :
  (exists event,
     Nip71.createNip71Event world 10 videoFlags signer 1920 1080 4 "abc123"
       "LKO2" "video/mp4" "" "1700000000" "https://example.com/v.mp4" "" ""
     = Some (Ok event) /\ Kind event = 22) /\
  (exists event,
     Nip68.createNip68Event world 10 imageFlags signer [] "" "1700000000" ""
     = Some (Ok event) /\ Kind event = 20).
Proof.
  split.
  - eexists. split; [vm_compute; reflexivity|].
    refine (proj1 (proj1 C1_kind_follows_orientation world 10%nat videoFlags
                     signer 1920 1080 4 "abc123" "LKO2" "video/mp4" ""
                     "1700000000" "https://example.com/v.mp4" "" "" _ _) _ _).
    + vm_compute. reflexivity.
    + reflexivity.
    + lia.
  - eexists. split; [vm_compute; reflexivity|].
    refine (proj2 C1_kind_follows_orientation world 10%nat imageFlags signer
              [] "" "1700000000" "" _ _).
    vm_compute. reflexivity.
Defined.

(** ** The tags of a video event *)

(** The shape of every event [createNip71Event] returns: the four tags of
    the literal, the [d] tag in legacy mode, and the nonce tag when work was
    done. *)
Lemma createNip71Event_shape w fuel f signer height width fileSize videoHash
      bhash mime title publishedAt videoURL description descriptor event :
  Nip71.createNip71Event w fuel f signer height width fileSize videoHash bhash
    mime title publishedAt videoURL description descriptor = Some (Ok event) ->
  exists alt extra,
    alt = (if height >? width then "Vertical Video" else "Horizontal Video") /\
    (extra = [] \/ exists nonce, extra = [nonceTag nonce (Nip71.diff f)]) /\
    Tags_ event =
      [ ["alt"; alt];
        ["title"; title];
        ["published_at"; publishedAt];
        ["imeta";
         "url " +:+ videoURL;
         "m " +:+ mime;
         "alt " +:+ alt;
         "x " +:+ videoHash;
         "size " +:+ Itoa fileSize;
         "dim " +:+ Itoa width +:+ "x" +:+ Itoa height;
         "blurhash " +:+ bhash] ]
      ++ (if Nip71.isLegacy f
          then [["d"; if String.eqb descriptor "" then videoHash else descriptor]]
          else [])
      ++ extra.
Proof.
  intros H. unfold Nip71.createNip71Event in H.
  exists (if height >? width then "Vertical Video" else "Horizontal Video").
  destruct (height >? width); destruct (Nip71.isLegacy f);
    destruct (String.eqb descriptor ""); simpl in H;
    (destruct (GetPublicKey signer) as [pubKey|]; [|discriminate]);
    match type of H with
    | match Pow ?w ?fuel ?e ?d with _ => _ end = _ =>
        destruct (Pow w fuel e d) as [[e'|]|] eqn:Hpow; try discriminate;
        apply Pow_fields in Hpow as (_ & _ & _ & _ & Htags)
    end;
    injection H as <-;
    (destruct Htags as [Htags|[nonce Htags]];
     [exists []|exists [nonceTag nonce (Nip71.diff f)]]);
    (split; [reflexivity|]); (split; [eauto|]);
    rewrite Htags; reflexivity.
Qed.

(** The builder returns an event whenever the signer yields a public key,
    the work meets no fault and the bound on attempts reaches a nonce that
    meets the target. *)
Lemma createNip71Event_returns w fuel f signer height width fileSize videoHash
      bhash mime title publishedAt videoURL description descriptor pubKey k :
  GetPublicKey signer = Ok pubKey ->
  (forall e, workFault w e = None) ->
  0 < k <= Z.of_nat fuel ->
  (forall e, Nip71.diff f <= Difficulty (GetID w (stamped e k (Nip71.diff f)))) ->
  exists event,
    Nip71.createNip71Event w fuel f signer height width fileSize videoHash
      bhash mime title publishedAt videoURL description descriptor
    = Some (Ok event).
Proof.
  intros Hkey Hfault Hk Hmeets. unfold Nip71.createNip71Event.
  destruct (height >? width); destruct (Nip71.isLegacy f);
    destruct (negb (String.eqb descriptor "")); simpl; rewrite Hkey;
    match goal with
    | |- context [Pow w fuel ?e ?d] =>
        destruct (Pow_terminates w fuel e d k (Hfault e) Hk (Hmeets e))
          as [event' ->]
    end; eauto.
Qed.

(** C4, as amended: in legacy mode the built event has exactly one [d] tag;
    its value is the override whenever the override is not the empty string,
    and the content hash when no override is given or the override is
    empty. *)
Theorem C4_d_tag_value :
  forall w fuel f signer height width fileSize videoHash bhash mime title
         publishedAt videoURL description descriptor event,
    Nip71.isLegacy f = true ->
    Nip71.createNip71Event w fuel f signer height width fileSize videoHash
      bhash mime title publishedAt videoURL description descriptor
    = Some (Ok event) ->
    let value := if String.eqb descriptor "" then videoHash else descriptor in
    (descriptor <> "" -> value = descriptor) /\
    (descriptor = "" -> value = videoHash) /\
    tagValue "d" (Tags_ event) = Some value /\
    (forall tag, In tag (Tags_ event) -> tagName tag = "d" ->
                 tag = ["d"; value]).
Proof.
  intros w fuel f signer height width fileSize videoHash bhash mime title
    publishedAt videoURL description descriptor event Hlegacy H value.
  apply createNip71Event_shape in H as (alt & extra & _ & Hextra & Htags).
  rewrite Hlegacy in Htags. fold value in Htags.
  split; [|split; [|split]].
  - intros Hne. unfold value.
    destruct (String.eqb_spec descriptor ""); [contradiction|reflexivity].
  - intros ->. reflexivity.
  - rewrite Htags. reflexivity.
  - intros tag Hin Hname. rewrite Htags in Hin. simpl in Hin.
    destruct Hin as [<-|[<-|[<-|[<-|[<-|Hin]]]]]; try discriminate.
    + reflexivity.
    + destruct Hextra as [->|[nonce ->]]; simpl in Hin.
      * contradiction.
      * destruct Hin as [<-|[]]. discriminate.
Qed.

Lemma C4_d_tag_witness :
  exists event,
    Nip71.createNip71Event world 10 (legacyFlags "myvideo") signer 1080 1920 4
      "abc123" "LKO2" "video/mp4" "" "1700000000" "https://example.com/v.mp4"
      "" "myvideo" = Some (Ok event) /\
    tagValue "d" (Tags_ event) = Some "myvideo".
Proof.
  eexists. split; [vm_compute; reflexivity|].
  refine (proj1 (proj2 (proj2
            (C4_d_tag_value world 10%nat (legacyFlags "myvideo") signer 1080
               1920 4 "abc123" "LKO2" "video/mp4" "" "1700000000"
               "https://example.com/v.mp4" "" "myvideo" _ _ _)))).
  - reflexivity.
  - vm_compute. reflexivity.
Defined.

(** C4, as stated, fails at the empty override: the [d] tag is the content
    hash, not the override. *)
Lemma C4_empty_override_counterexample :
  ~ (forall event,
        Nip71.createNip71Event world 10 (legacyFlags "") signer 1080 1920 4
          "abc123" "LKO2" "video/mp4" "" "1700000000"
          "https://example.com/v.mp4" "" "" = Some (Ok event) ->
        tagValue "d" (Tags_ event) = Some "").
Proof.
  intros H.
  specialize (H (mkEvent "" "pubkey" 1700000004 34235
                   [ ["alt"; "Horizontal Video"]; ["title"; ""];
                     ["published_at"; "1700000000"];
                     ["imeta"; "url https://example.com/v.mp4"; "m video/mp4";
                      "alt Horizontal Video"; "x abc123"; "size 4";
                      "dim 1920x1080"; "blurhash LKO2"];
                     ["d"; "abc123"]; ["nonce"; "3"; "8"] ] "" "")).
  vm_compute in H. specialize (H eq_refl). discriminate H.
Qed.

(** ** The title of a video event *)

(** [parseAndInitParams] never touches the title; whatever [-title] was
    given, the empty string included, is what the event carries. *)
Lemma parseAndInitParams_title w args f signer :
  Nip71.parseAndInitParams w args = Return (f, signer) ->
  Nip71.title f = Nip71.title args.
Proof.
  unfold Nip71.parseAndInitParams. intros H.
  repeat match type of H with
         | context [if ?b then _ else _] => destruct b
         | context [match nip19Decode ?w ?k with _ => _ end] =>
             destruct (nip19Decode w k) as [[? []]|]
         | context [match NewPlainKeySigner ?w ?k with _ => _ end] =>
             destruct (NewPlainKeySigner w k)
         end; simpl in H; try discriminate; injection H as <- <-; reflexivity.
Qed.

(** C5 at work on the command line [-url https://example.com/v.mp4] with no
    [-title]: the run succeeds and prints an event whose [title] tag is the
    empty string, not the URL of the video. *)
Lemma C5_title_left_empty :
  exists event rest,
    Nip71.title videoFlags = "" /\
    Nip71.main network world 10 videoFlags []
    = Some ([], APrintln "Generated Event Data:" event :: rest, Return tt) /\
    tagValue "title" (Tags_ event) = Some "" /\
    tagValue "title" (Tags_ event) <> Some (Nip71.videoURL videoFlags).
Proof.
  eexists. eexists. split; [reflexivity|].
  split; [vm_compute; reflexivity|].
  split; [reflexivity|]. vm_compute. discriminate.
Qed.

(** ** Input validation *)

Lemma ParseInt_empty : ParseInt "" = inl ErrSyntax.
Proof. reflexivity. Qed.

Example ParseInt_examples :
  ParseInt "1700000000" = inr 1700000000 /\
  ParseInt "+7" = inr 7 /\
  ParseInt "-7" = inr (-7) /\
  ParseInt "-9223372036854775808" = inr (-9223372036854775808) /\
  ParseInt "9223372036854775808" = inl ErrRange /\
  ParseInt "12a" = inl ErrSyntax /\
  ParseInt "1_000" = inl ErrSyntax /\
  ParseInt " 1" = inl ErrSyntax /\
  ParseInt "-" = inl ErrSyntax.
Proof. repeat split. Qed.

(** A string of decimal digits is read as the number it writes. *)
Lemma parseDigits_digits s :
  forall acc n,
    parseDigits s acc = Some n ->
    0 <= acc -> acc * 10 ^ Z.of_nat (String.length s) <= n
                < (acc + 1) * 10 ^ Z.of_nat (String.length s).
Proof.
  induction s as [|c rest IH]; intros acc n H Hacc; simpl in H.
  - injection H as <-. simpl. lia.
  - destruct (digitVal c) as [d|] eqn:Hd; [|discriminate].
    assert (Hrange : 0 <= d <= 9).
    { unfold digitVal in Hd.
      destruct ((48 <=? Z.of_N (N_of_ascii c))
                && (Z.of_N (N_of_ascii c) <=? 57)) eqn:Hb; [|discriminate].
      injection Hd as <-. apply andb_true_iff in Hb as [H1 H2].
      apply Z.leb_le in H1, H2. lia. }
    apply IH in H; [|lia].
    replace (Z.of_nat (String.length (String c rest)))
      with (Z.succ (Z.of_nat (String.length rest)))
      by (simpl String.length; lia).
    rewrite Z.pow_succ_r by lia. nia.
Qed.

(** Whatever [ParseInt] accepts fits in 64 bits. *)
Lemma ParseInt_range s n : ParseInt s = inr n -> - 2 ^ 63 <= n < 2 ^ 63.
Proof.
  unfold ParseInt. destruct s as [|c rest]; [discriminate|].
  set (neg := Ascii.eqb c "-"%char).
  set (digits := if Ascii.eqb c "+"%char || neg then rest else String c rest).
  destruct digits as [|c' rest']; [discriminate|].
  destruct (parseDigits (String c' rest') 0) as [un|] eqn:Hun; [|discriminate].
  apply parseDigits_digits in Hun; [|lia].
  assert (0 <= un) by lia.
  destruct neg; simpl.
  - destruct (2 ^ 63 <? un) eqn:Hcut; [discriminate|].
    apply Z.ltb_ge in Hcut. intros [= <-]. lia.
  - destruct (2 ^ 63 <=? un) eqn:Hcut; [discriminate|].
    apply Z.leb_gt in Hcut. intros [= <-]. lia.
Qed.

Lemma ValidateInput_ok_iff w videoURL title publishedAt :
  ValidateInput w videoURL title publishedAt = None <->
  videoURL <> "" /\
  ParseRequestURI w videoURL = None /\
  (exists n, ParseInt publishedAt = inr n).
Proof.
  unfold ValidateInput.
  destruct (String.eqb_spec videoURL "") as [->|Hurl].
  { split; [discriminate|]. intros [H _]. congruence. }
  destruct (ParseRequestURI w videoURL) as [e|] eqn:Huri.
  { split; [discriminate|]. intros (_ & H & _). discriminate. }
  destruct (String.eqb_spec publishedAt "") as [->|Hts].
  { split; [discriminate|]. intros (_ & _ & n & Hn).
    rewrite ParseInt_empty in Hn. discriminate. }
  destruct (ParseInt publishedAt) as [err|n] eqn:Hparse.
  - split; [discriminate|]. intros (_ & _ & n & Hn). discriminate.
  - split; [|reflexivity]. intros _. repeat split; eauto.
Qed.


(** ** Key-format normalization *)

(** C9: a key that does not start with [nsec] comes back unchanged and
    without error, the empty key included; an error or a panic can only come
    out of a key that starts with [nsec], and the decoder has no say in the
    result for any other key. *)
Theorem C9_non_nsec_passes_through :
  (forall (w : World) (key : string),
      HasPrefix key "nsec" = false ->
      ConvertNIP19ToHex w key = Return (Ok key)) /\
  (forall (w : World), ConvertNIP19ToHex w "" = Return (Ok "")) /\
  (forall (w : World) (key : string),
      ConvertNIP19ToHex w key <> Return (Ok key) ->
      HasPrefix key "nsec" = true) /\
  (forall (w : World) (key msg : string),
      ConvertNIP19ToHex w key = Return (Err msg) ->
      HasPrefix key "nsec" = true /\
      exists err, nip19Decode w key = Err err).
Proof.
  repeat split.
  - intros w key H. unfold ConvertNIP19ToHex. rewrite H. reflexivity.
  - intros w key H. unfold ConvertNIP19ToHex in H.
    destruct (HasPrefix key "nsec"); [reflexivity|congruence].
  - unfold ConvertNIP19ToHex in H.
    destruct (HasPrefix key "nsec"); [reflexivity|discriminate].
  - unfold ConvertNIP19ToHex in H.
    destruct (HasPrefix key "nsec"); [|discriminate].
    destruct (nip19Decode w key) as [[? []]|err]; try discriminate. eauto.
Qed.

Lemma C9_pass_through_witness :
  ConvertNIP19ToHex world "0123abcd" = Return (Ok "0123abcd") /\
  HasPrefix "nsec1qqq" "nsec" = true.
Proof.
  split.
  - apply (proj1 C9_non_nsec_passes_through world "0123abcd"). reflexivity.
  - refine (proj1 (proj2 (proj2 (proj2 C9_non_nsec_passes_through)) world
                     "nsec1qqq" "failed to decode NIP-19 key: invalid bech32 string" _)).
    vm_compute. reflexivity.
Defined.

(** ** Publishing to relays *)

Section PublishFacts.

Context {S Conn : Type} (net : Network S Conn).
Variables (event : Event) (signer : Keyer).

(** One turn of the loop dials its relay once and no other. *)
Lemma publishToRelay_dialed s relayURL :
  dialed (snd (fst (publishToRelay net event signer s relayURL))) = [relayURL].
Proof.
  unfold publishToRelay.
  destruct (RelayConnect net s relayURL) as [s1 [relay|err]]; [|reflexivity].
  destruct (relayPublish net s1 relay event) as [s2 [err|]]; [|reflexivity].
  destruct (HasPrefix err authRequired); [|reflexivity].
  destruct (relayAuth net s2 relay (SignEvent signer)) as [s3 [authErr|]];
    [reflexivity|].
  destruct (relayPublish net s3 relay event) as [s4 [err2|]]; reflexivity.
Qed.

Lemma dialed_app acts acts' : dialed (acts ++ acts') = dialed acts ++ dialed acts'.
Proof.
  induction acts as [|a acts IH]; [reflexivity|].
  destruct a; simpl; rewrite IH; reflexivity.
Qed.

(** The loop dials every relay of the list, each once, in the order of the
    list, whatever happened at the relays before it. *)
Lemma publishLoop_dialed relays :
  forall s deferred,
    dialed (snd (fst (publishLoop net event signer s relays deferred))) = relays.
Proof.
  induction relays as [|relayURL rest IH]; intros s deferred; [reflexivity|].
  simpl. pose proof (publishToRelay_dialed s relayURL) as Hone.
  destruct (publishToRelay net event signer s relayURL) as [[s' acts] opened].
  simpl in Hone.
  match goal with
  | |- context [publishLoop net event signer s' rest ?d] =>
      specialize (IH s' d);
      destruct (publishLoop net event signer s' rest d) as [[s'' acts'] d'']
  end.
  simpl in *. rewrite dialed_app, Hone, IH. reflexivity.
Qed.

Lemma runDeferred_dialed deferred :
  forall s, dialed (snd (runDeferred net s deferred)) = [].
Proof.
  induction deferred as [|[relayURL relay] rest IH]; intros s; [reflexivity|].
  simpl. specialize (IH (relayClose net s relay)).
  destruct (runDeferred net (relayClose net s relay) rest) as [s' acts].
  exact IH.
Qed.

Lemma PublishEvent_dialed s relays :
  dialed (snd (PublishEvent net event signer s relays)) = relays.
Proof.
  unfold PublishEvent. pose proof (publishLoop_dialed relays s []) as Hloop.
  destruct (publishLoop net event signer s relays []) as [[s' acts] deferred].
  pose proof (runDeferred_dialed deferred s') as Hclose.
  destruct (runDeferred net s' deferred) as [s'' closes].
  simpl in *. rewrite dialed_app, Hloop, Hclose. apply app_nil_r.
Qed.

End PublishFacts.




(** ** The upload authorization *)

(** What the authorization event of an upload carries, pinned down tag by
    tag: the verb tag that [createAuthorizationEvent] puts first, then the
    three tags [UploadFile] asks for. *)
Lemma signedAuthorizationEvent_upload w signer sha256Hash ev :
  signedAuthorizationEvent w signer "upload" (uploadTags w sha256Hash) = Ok ev ->
  Kind ev = 24242 /\
  Content ev = "Upload file" /\
  CreatedAt ev = nowAtAuthEvent w /\
  Tags_ ev = [ ["t"; "upload"];
               ["x"; sha256Hash];
               ["t"; "upload"];
               ["expiration"; Itoa (nowAtUpload w + 300)] ].
Proof.
  unfold signedAuthorizationEvent, SignEvent. intros H.
  destruct (GetPublicKey signer) as [pubKeyHex|]; [|discriminate].
  match type of H with
  | context [signatureOf signer ?e] =>
      destruct (signatureOf signer e) as [[[id pk] sg]|]; [|discriminate]
  end.
  injection H as <-. repeat split.
Qed.

Lemma uploadRequest_inv w server filePath signer req :
  uploadRequest w server filePath signer = Ok req ->
  exists file size mimeType ev json,
    osOpen w filePath = Ok file /\
    statSize file = Ok size /\
    filetypeMatch w (readHead (contents file)) = Ok mimeType /\
    signedAuthorizationEvent w signer "upload"
      (uploadTags w (hexEncode (sha256Sum w (contents file)))) = Ok ev /\
    jsonMarshal w ev = Ok json /\
    req = mkRequest "PUT" (server +:+ "/upload")
            [ ("Content-Type", mimeType);
              ("Content-Length", Itoa size);
              ("Authorization", "Nostr " +:+ base64Encode w json) ]
            (contents file).
Proof.
  unfold uploadRequest, createAuthorizationEvent. intros H.
  destruct (osOpen w filePath) as [file|] eqn:Hopen; [|discriminate].
  destruct (copyErr file); [discriminate|].
  destruct (statSize file) as [size|] eqn:Hstat; [|discriminate].
  destruct (String.eqb (contents file) ""); [discriminate|].
  destruct (filetypeMatch w (readHead (contents file))) as [mimeType|]
    eqn:Hmime; [|discriminate].
  destruct (signedAuthorizationEvent w signer "upload"
              (uploadTags w (hexEncode (sha256Sum w (contents file)))))
    as [ev|] eqn:Hev; [|discriminate].
  destruct (jsonMarshal w ev) as [json|] eqn:Hjson; [|discriminate].
  destruct (NewRequest w "PUT" (server +:+ "/upload")); [discriminate|].
  injection H as <-. exists file, size, mimeType, ev, json. repeat split; auto.
Qed.

(** C8, as amended: the authorization event of every upload has kind 24242
    and carries a [t upload] tag, an [x] tag holding the hex-encoded SHA-256
    hash of the bytes being uploaded, and an [expiration] tag set 300
    seconds after the clock read of the upload; a response whose status is
    not 200, 201 or 202 always fails the upload, and the upload succeeds
    exactly when the status is one of the three and the body of the response
    decodes as a JSON object. *)
Theorem C8_upload_authorization :
  forall (w : World) (server filePath : string) (signer : Keyer)
         (req : Request),
    uploadRequest w server filePath signer = Ok req ->
    (exists file ev json,
        osOpen w filePath = Ok file /\
        ReqBody req = contents file /\
        signedAuthorizationEvent w signer "upload"
          (uploadTags w (hexEncode (sha256Sum w (contents file)))) = Ok ev /\
        jsonMarshal w ev = Ok json /\
        In ("Authorization", "Nostr " +:+ base64Encode w json) (Header req) /\
        Kind ev = 24242 /\
        In ["t"; "upload"] (Tags_ ev) /\
        In ["x"; hexEncode (sha256Sum w (contents file))] (Tags_ ev) /\
        In ["expiration"; Itoa (nowAtUpload w + 300)] (Tags_ ev)) /\
    (forall resp,
        clientDo w req = Ok resp ->
        let success :=
          StatusCode resp = 200 \/ StatusCode resp = 201
          \/ StatusCode resp = 202 in
        (~ success ->
         UploadFile w server filePath signer
         = Err ("upload failed: " +:+ Body resp +:+ ", code "
                  +:+ Itoa (StatusCode resp))) /\
        (forall descriptor,
            UploadFile w server filePath signer = Ok descriptor <->
            success /\ jsonDecodeObject w (Body resp) = Ok descriptor)).
Proof.
  intros w server filePath signer req Hreq. split.
  - apply uploadRequest_inv in Hreq
      as (file & size & mimeType & ev & json & Hopen & _ & _ & Hev & Hjson & ->).
    exists file, ev, json.
    pose proof (signedAuthorizationEvent_upload _ _ _ _ Hev)
      as (Hkind & _ & _ & Htags).
    repeat split; auto.
    + simpl. auto.
    + rewrite Htags. simpl. auto.
    + rewrite Htags. simpl. auto.
    + rewrite Htags. simpl. auto.
  - intros resp Hresp success. unfold UploadFile. rewrite Hreq, Hresp.
    unfold success.
    destruct (Z.eqb_spec (StatusCode resp) 200) as [H200|H200];
      destruct (Z.eqb_spec (StatusCode resp) 201) as [H201|H201];
      destruct (Z.eqb_spec (StatusCode resp) 202) as [H202|H202]; simpl;
      (split;
       [ intros Hnot; try reflexivity; exfalso; apply Hnot; auto
       | intros descriptor; split;
         [ intros Hres; try discriminate; split; auto
         | intros [[Hs|[Hs|Hs]] Hdec]; try contradiction; exact Hdec ] ]).
Qed.

Lemma C8_upload_witness :
  exists descriptor,
    UploadFile world "https://cdn.example" "video.mp4" signer = Ok descriptor.
Proof.
  assert (Hreq : exists req,
             uploadRequest world "https://cdn.example" "video.mp4" signer
             = Ok req) by (vm_compute; eauto).
  destruct Hreq as [req Hreq].
  destruct (C8_upload_authorization world "https://cdn.example" "video.mp4"
              signer req Hreq) as [_ Hresp].
  destruct (Hresp (mkResponse 200 "200 OK" "descriptor") eq_refl) as [_ Hiff].
  eexists. apply Hiff. split; [left; reflexivity|reflexivity].
Defined.

(** C8, as stated, fails on a response with status 200 whose body is not
    JSON: the status is one of the three, and the upload is an error. *)
Lemma C8_bad_body_counterexample :
  ~ (forall req resp,
        uploadRequest worldBadBody "https://cdn.example" "video.mp4" signer
        = Ok req ->
        clientDo worldBadBody req = Ok resp ->
        ((exists descriptor,
             UploadFile worldBadBody "https://cdn.example" "video.mp4" signer
             = Ok descriptor) <->
         StatusCode resp = 200 \/ StatusCode resp = 201
         \/ StatusCode resp = 202)).
Proof.
  intros H.
  assert (Hreq : exists req,
             uploadRequest worldBadBody "https://cdn.example" "video.mp4"
               signer = Ok req) by (vm_compute; eauto).
  destruct Hreq as [req Hreq].
  specialize (H req (mkResponse 200 "200 OK" "oops") Hreq eq_refl).
  destruct H as [_ H]. destruct (H (or_introl eq_refl)) as [descriptor Hd].
  vm_compute in Hd. discriminate Hd.
Qed.

(** ** The video command when no relay can be resolved *)

Lemma loadRelays_unresolvable w relayParam :
  unresolvable w relayParam -> Nip71.loadRelays w relayParam = Return [].
Proof.
  intros (Hws & Hwss & Hstat). unfold Nip71.loadRelays.
  rewrite Hws, Hwss. simpl. destruct (osStat w relayParam); congruence.
Qed.

Lemma parseAndInitParams_relays w args f signer :
  Nip71.parseAndInitParams w args = Return (f, signer) ->
  Nip71.relay f = Nip71.relay args /\ Nip71.r f = Nip71.r args.
Proof.
  unfold Nip71.parseAndInitParams. intros H.
  repeat match type of H with
         | context [if ?b then _ else _] => destruct b
         | context [match nip19Decode ?w ?k with _ => _ end] =>
             destruct (nip19Decode w k) as [[? []]|]
         | context [match NewPlainKeySigner ?w ?k with _ => _ end] =>
             destruct (NewPlainKeySigner w k)
         end; simpl in H; try discriminate; injection H as <- <-; split;
    reflexivity.
Qed.

Lemma fetchVideo_relays w f signer f' videoPath temp :
  Nip71.fetchVideo w f signer = Return (f', videoPath, temp) ->
  Nip71.relay f' = Nip71.relay f /\ Nip71.r f' = Nip71.r f.
Proof.
  unfold Nip71.fetchVideo. intros H.
  destruct (negb (String.eqb (Nip71.videoFile f) "")).
  - destruct (UploadFile w (Nip71.blossom f) (Nip71.videoFile f) signer)
      as [uploadInfo|]; [|discriminate].
    destruct (uploadInfo !! "url") as [[url| |]|]; try discriminate.
    destruct (uploadInfo !! "uploaded") as [[| |]|];
      injection H as <- <- <-; split; reflexivity.
  - destruct (DownloadVideo w (Nip71.videoURL f)); [|discriminate].
    injection H as <- <- <-. split; reflexivity.
Qed.

(** C10: in the video command, when a relay flag is set and neither relay
    parameter resolves to a relay, a run that gets as far as printing the
    signed event ends successfully right after it: the network is left as
    it was, nothing is sent to any relay, nothing is written to the error
    log, and all that follows the printed event is the removal of the
    downloaded file. *)
Theorem C10_unresolved_relays_are_skipped :
  forall {S Conn : Type} (net : Network S Conn) (w : World) (fuel : nat)
         (args : Nip71.Flags) (s s' : S) (tr : list Action) (out : run unit)
         (msg : string) (event : Event),
    Nip71.main net w fuel args s = Some (s', tr, out) ->
    In (APrintln msg event) tr ->
    Nip71.relay args <> "" \/ Nip71.r args <> "" ->
    unresolvable w (Nip71.relay args) ->
    unresolvable w (Nip71.r args) ->
    out = Return tt /\
    s' = s /\
    (forall a, In a tr -> isRelayAction a = false /\ isLogLine a = false) /\
    exists cleanup,
      tr = APrintln msg event :: cleanup /\
      forall a, In a cleanup -> exists path, a = ARemove path.
Proof.
  intros S Conn net w fuel args s s' tr out msg event H Hin Hflag Hrelay Hr.
  unfold Nip71.main in H.
  destruct (Nip71.parseAndInitParams w args) as [[f signer]| |] eqn:Hparse;
    try (injection H as <- <- <-; contradiction).
  apply parseAndInitParams_relays in Hparse as [Hrel1 Hr1].
  destruct (String.eqb (Nip71.videoURL f) "" && String.eqb (Nip71.videoFile f) "");
    try (injection H as <- <- <-; contradiction).
  destruct (Nip71.fetchVideo w f signer) as [[[f' videoPath] temp]| |] eqn:Hfetch;
    try (injection H as <- <- <-; contradiction).
  apply fetchVideo_relays in Hfetch as [Hrel2 Hr2].
  rewrite Hrel1 in Hrel2. rewrite Hr1 in Hr2.
  destruct (ValidateInput w (Nip71.videoURL f') (Nip71.title f')
              (Nip71.publishedAt f'));
    try (injection H as <- <- <-; contradiction).
  destruct (ExtractMediaInfo w videoPath "video") as [info|];
    try (injection H as <- <- <-; contradiction).
  match type of H with
  | match ?c with _ => _ end = _ => destruct c as [[built|]|]
  end; try discriminate; try (injection H as <- <- <-; contradiction).
  destruct (SignEvent signer built) as [signed|];
    try (injection H as <- <- <-; contradiction).
  rewrite Hrel2, Hr2 in H.
  assert (Hset : negb (String.eqb (Nip71.relay args) "")
                 || negb (String.eqb (Nip71.r args) "") = true).
  { destruct (String.eqb_spec (Nip71.relay args) "") as [He|];
      [|reflexivity].
    destruct (String.eqb_spec (Nip71.r args) "") as [He'|]; [|reflexivity].
    destruct Hflag; contradiction. }
  rewrite Hset in H.
  rewrite (loadRelays_unresolvable _ _ Hrelay) in H. simpl in H.
  rewrite (loadRelays_unresolvable _ _ Hr) in H. simpl in H.
  injection H as <- <- <-.
  assert (Hclean : forall a,
             In a (match temp with
                   | Some path => [ARemove path]
                   | None => []
                   end) -> exists path, a = ARemove path).
  { intros a Ha. destruct temp as [path|]; simpl in Ha.
    - destruct Ha as [<-|[]]. eauto.
    - contradiction. }
  assert (Hfirst : APrintln msg event = APrintln "Generated Event Data:" signed).
  { destruct Hin as [Heq|Hin]; [congruence|].
    apply Hclean in Hin as [path Hpath]. discriminate. }
  split; [reflexivity|]. split; [reflexivity|]. split.
  - intros a [<-|Ha]; [split; reflexivity|].
    apply Hclean in Ha as [path ->]. split; reflexivity.
  - eexists. split; [rewrite Hfirst; reflexivity|exact Hclean].
Qed.

Lemma C10_skip_witness :
  exists event cleanup,
    Nip71.main network world 10 videoFlags []
    = Some ([], APrintln "Generated Event Data:" event :: cleanup, Return tt).
Proof.
  assert (Hrun : exists event,
             Nip71.main network world 10 videoFlags []
             = Some ([], [APrintln "Generated Event Data:" event;
                          ARemove "/tmp/video-1.mp4"], Return tt))
    by (vm_compute; eauto).
  destruct Hrun as [event Hrun].
  destruct (C10_unresolved_relays_are_skipped network world 10 videoFlags [] []
              _ _ "Generated Event Data:" event Hrun)
    as (_ & _ & _ & cleanup & Htr & _).
  - left. reflexivity.
  - left. discriminate.
  - repeat split; discriminate.
  - repeat split; discriminate.
  - exists event, cleanup. rewrite Hrun, Htr. reflexivity.
Defined.

(** ** What the video command prints *)

Section PrintFacts.

Context {S Conn : Type} (net : Network S Conn).

Lemma publishToRelay_no_println event signer s relayURL :
  Forall (fun a => isPrintln a = false)
    (snd (fst (publishToRelay net event signer s relayURL))).
Proof.
  unfold publishToRelay.
  destruct (RelayConnect net s relayURL) as [s1 [relay|err]];
    [|repeat constructor].
  destruct (relayPublish net s1 relay event) as [s2 [err|]];
    [|repeat constructor].
  destruct (HasPrefix err authRequired); [|repeat constructor].
  destruct (relayAuth net s2 relay (SignEvent signer)) as [s3 [authErr|]];
    [repeat constructor|].
  destruct (relayPublish net s3 relay event) as [s4 [err2|]];
    repeat constructor.
Qed.

Lemma publishLoop_no_println event signer relays :
  forall s deferred,
    Forall (fun a => isPrintln a = false)
      (snd (fst (publishLoop net event signer s relays deferred))).
Proof.
  induction relays as [|relayURL rest IH]; intros s deferred; [constructor|].
  simpl. pose proof (publishToRelay_no_println event signer s relayURL) as Hone.
  destruct (publishToRelay net event signer s relayURL) as [[s' acts] opened].
  match goal with
  | |- context [publishLoop net event signer s' rest ?d] =>
      specialize (IH s' d);
      destruct (publishLoop net event signer s' rest d) as [[s'' acts'] d'']
  end.
  simpl in *. apply Forall_app. split; assumption.
Qed.

Lemma runDeferred_no_println deferred :
  forall s, Forall (fun a => isPrintln a = false)
              (snd (runDeferred net s deferred)).
Proof.
  induction deferred as [|[relayURL relay] rest IH]; intros s; [constructor|].
  simpl. specialize (IH (relayClose net s relay)).
  destruct (runDeferred net (relayClose net s relay) rest) as [s' acts].
  constructor; [reflexivity|exact IH].
Qed.

Lemma PublishEvent_no_println event signer s relays :
  Forall (fun a => isPrintln a = false)
    (snd (PublishEvent net event signer s relays)).
Proof.
  unfold PublishEvent.
  pose proof (publishLoop_no_println event signer relays s []) as Hloop.
  destruct (publishLoop net event signer s relays []) as [[s' acts] deferred].
  pose proof (runDeferred_no_println deferred s') as Hclose.
  destruct (runDeferred net s' deferred) as [s'' closes].
  simpl in *. apply Forall_app. split; assumption.
Qed.

(** Whatever [main] prints is the event [createNip71Event] built from the
    flags and the fingerprint of the video, signed. *)
Lemma main_printed w fuel args s s' tr out msg event :
  Nip71.main net w fuel args s = Some (s', tr, out) ->
  In (APrintln msg event) tr ->
  exists f signer f' videoPath temp info built,
    Nip71.parseAndInitParams w args = Return (f, signer) /\
    Nip71.fetchVideo w f signer = Return (f', videoPath, temp) /\
    ValidateInput w (Nip71.videoURL f') (Nip71.title f')
      (Nip71.publishedAt f') = None /\
    ExtractMediaInfo w videoPath "video" = Ok info /\
    Nip71.createNip71Event w fuel f' signer (height info) (width info)
      (fileSize info) (fileHash info) (bhash info) (mime info)
      (Nip71.title f') (Nip71.publishedAt f') (Nip71.videoURL f')
      (Nip71.description f') (Nip71.descriptor f') = Some (Ok built) /\
    SignEvent signer built = Ok event.
Proof.
  intros H Hin. unfold Nip71.main in H.
  destruct (Nip71.parseAndInitParams w args) as [[f signer]| |] eqn:Hparse;
    try (injection H as <- <- <-; contradiction).
  destruct (String.eqb (Nip71.videoURL f) "" && String.eqb (Nip71.videoFile f) "");
    try (injection H as <- <- <-; contradiction).
  destruct (Nip71.fetchVideo w f signer) as [[[f' videoPath] temp]| |] eqn:Hfetch;
    try (injection H as <- <- <-; contradiction).
  destruct (ValidateInput w (Nip71.videoURL f') (Nip71.title f')
              (Nip71.publishedAt f')) eqn:Hvalid;
    try (injection H as <- <- <-; contradiction).
  destruct (ExtractMediaInfo w videoPath "video") as [info|] eqn:Hinfo;
    try (injection H as <- <- <-; contradiction).
  match type of H with
  | match ?c with _ => _ end = _ => destruct c as [[built|]|] eqn:Hbuilt
  end; try discriminate; try (injection H as <- <- <-; contradiction).
  destruct (SignEvent signer built) as [signed|] eqn:Hsign;
    try (injection H as <- <- <-; contradiction).
  exists f, signer, f', videoPath, temp, info, built.
  repeat (split; [reflexivity || assumption|]).
  assert (Hclean : forall a,
             In a (match temp with
                   | Some path => [ARemove path]
                   | None => []
                   end) -> isPrintln a = false).
  { intros a Ha. destruct temp; simpl in Ha; [destruct Ha as [<-|[]]|contradiction].
    reflexivity. }
  assert (Hsame : forall acts,
             Forall (fun a => isPrintln a = false) acts ->
             In (APrintln msg event)
               (APrintln "Generated Event Data:" signed :: acts) ->
             signed = event).
  { intros acts Hall [Heq|Hrest]; [congruence|].
    rewrite List.Forall_forall in Hall. apply Hall in Hrest. discriminate. }
  assert (Hcleanall : Forall (fun a => isPrintln a = false)
                        (match temp with
                         | Some path => [ARemove path]
                         | None => []
                         end)).
  { apply List.Forall_forall. exact Hclean. }
  rewrite Hsign. f_equal.
  destruct (negb (String.eqb (Nip71.relay f') "")
            || negb (String.eqb (Nip71.r f') "")).
  - destruct (Nip71.loadRelays w (Nip71.relay f')) as [relays| |];
      try (injection H as <- <- <-; apply (Hsame []); [constructor|exact Hin]).
    destruct (if (length relays =? 0)%nat
              then Nip71.loadRelays w (Nip71.r f')
              else Return relays) as [relays'| |];
      try (injection H as <- <- <-; apply (Hsame []); [constructor|exact Hin]).
    destruct (0 <? length relays')%nat.
    + pose proof (PublishEvent_no_println signed signer s relays') as Hpub.
      destruct (PublishEvent net signed signer s relays') as [s1 acts].
      injection H as <- <- <-. simpl in Hpub.
      eapply Hsame; [|exact Hin]. apply Forall_app. split; assumption.
    + injection H as <- <- <-. eapply Hsame; [|exact Hin]. exact Hcleanall.
  - injection H as <- <- <-. eapply Hsame; [|exact Hin]. exact Hcleanall.
Qed.

End PrintFacts.

Lemma SignEvent_keeps signer e e' :
  SignEvent signer e = Ok e' ->
  Tags_ e' = Tags_ e /\ Kind e' = Kind e /\ Content e' = Content e /\
  CreatedAt e' = CreatedAt e.
Proof.
  unfold SignEvent. destruct (signatureOf signer e) as [[[id pk] sg]|];
    [|discriminate].
  intros [= <-]. repeat split.
Qed.

Lemma fetchVideo_title w f signer f' videoPath temp :
  Nip71.fetchVideo w f signer = Return (f', videoPath, temp) ->
  Nip71.title f' = Nip71.title f.
Proof.
  unfold Nip71.fetchVideo. intros H.
  destruct (negb (String.eqb (Nip71.videoFile f) "")).
  - destruct (UploadFile w (Nip71.blossom f) (Nip71.videoFile f) signer)
      as [uploadInfo|]; [|discriminate].
    destruct (uploadInfo !! "url") as [[url| |]|]; try discriminate.
    destruct (uploadInfo !! "uploaded") as [[| |]|];
      injection H as <- <- <-; reflexivity.
  - destruct (DownloadVideo w (Nip71.videoURL f)); [|discriminate].
    injection H as <- <- <-. reflexivity.
Qed.

(** In every run of the video command, the [title] tag of the printed event
    is the [-title] flag as given: with no title given it is empty. *)
Lemma main_title_tag {S Conn : Type} (net : Network S Conn) w fuel args s s' tr
      out msg event :
  Nip71.main net w fuel args s = Some (s', tr, out) ->
  In (APrintln msg event) tr ->
  tagValue "title" (Tags_ event) = Some (Nip71.title args).
Proof.
  intros H Hin.
  destruct (main_printed net w fuel args s s' tr out msg event H Hin)
    as (f & signer & f' & videoPath & temp & info & built & Hparse & Hfetch
        & _ & _ & Hbuilt & Hsign).
  apply SignEvent_keeps in Hsign as (-> & _).
  apply createNip71Event_shape in Hbuilt as (alt & extra & _ & _ & ->).
  simpl. rewrite (fetchVideo_title _ _ _ _ _ _ Hfetch).
  rewrite (parseAndInitParams_title _ _ _ _ Hparse). reflexivity.
Qed.

(** With the step of the earlier variants in place, an event built with no
    title given carries the URL of the video as its title. *)
Lemma earlier_title_defaults_to_url w fuel f signer height width fileSize
      videoHash bhash mime event :
  Nip71.title f = "" ->
  (let f := Nip71Earlier.defaultTitle f in
   Nip71.createNip71Event w fuel f signer height width fileSize videoHash bhash
     mime (Nip71.title f) (Nip71.publishedAt f) (Nip71.videoURL f)
     (Nip71.description f) (Nip71.descriptor f)) = Some (Ok event) ->
  tagValue "title" (Tags_ event) = Some (Nip71.videoURL f).
Proof.
  intros Htitle H. cbv zeta in H.
  apply createNip71Event_shape in H as (alt & extra & _ & _ & ->).
  unfold Nip71Earlier.defaultTitle. rewrite Htitle. reflexivity.
Qed.

(** ** The fingerprint of a media file *)

(** The content hash [ExtractMediaInfo] reports is the SHA-256 of the bytes
    of the file, in hexadecimal, and the size is what [Stat] reports. *)
Lemma ExtractMediaInfo_hash w imagePath fileType info :
  ExtractMediaInfo w imagePath fileType = Ok info ->
  exists file,
    osOpen w imagePath = Ok file /\
    fileHash info = hexEncode (sha256Sum w (contents file)) /\
    statSize file = Ok (fileSize info).
Proof.
  unfold ExtractMediaInfo. intros H.
  destruct (GetMediaDimensions w imagePath fileType)
    as [[[[width height] bhash] mime]|]; [|discriminate].
  destruct (osOpen w imagePath) as [file|]; [|discriminate].
  destruct (copyErr file); [discriminate|].
  destruct (statSize file) as [size|] eqn:Hstat; [|discriminate].
  injection H as <-. exists file. repeat split. exact Hstat.
Qed.

(** Two hexadecimal digits for every byte. *)
Lemma hexEncode_length bytes :
  String.length (hexEncode bytes) = (2 * String.length bytes)%nat.
Proof.
  induction bytes as [|c rest IH]; [reflexivity|].
  simpl. rewrite IH. lia.
Qed.

(** Neither the initialisation nor the media stage of the video command
    touches the descriptor or the legacy switch. *)
Lemma parseAndInitParams_mode w args f signer :
  Nip71.parseAndInitParams w args = Return (f, signer) ->
  Nip71.descriptor f = Nip71.descriptor args /\
  Nip71.isLegacy f = Nip71.isLegacy args.
Proof.
  unfold Nip71.parseAndInitParams. intros H.
  repeat match type of H with
         | context [if ?b then _ else _] => destruct b
         | context [match nip19Decode ?w ?k with _ => _ end] =>
             destruct (nip19Decode w k) as [[? []]|]
         | context [match NewPlainKeySigner ?w ?k with _ => _ end] =>
             destruct (NewPlainKeySigner w k)
         end; simpl in H; try discriminate; injection H as <- <-; split;
    reflexivity.
Qed.

Lemma fetchVideo_mode w f signer f' videoPath temp :
  Nip71.fetchVideo w f signer = Return (f', videoPath, temp) ->
  Nip71.descriptor f' = Nip71.descriptor f /\
  Nip71.isLegacy f' = Nip71.isLegacy f.
Proof.
  unfold Nip71.fetchVideo. intros H.
  destruct (negb (String.eqb (Nip71.videoFile f) "")).
  - destruct (UploadFile w (Nip71.blossom f) (Nip71.videoFile f) signer)
      as [uploadInfo|]; [|discriminate].
    destruct (uploadInfo !! "url") as [[url| |]|]; try discriminate.
    destruct (uploadInfo !! "uploaded") as [[| |]|];
      injection H as <- <- <-; split; reflexivity.
  - destruct (DownloadVideo w (Nip71.videoURL f)); [|discriminate].
    injection H as <- <- <-. split; reflexivity.
Qed.

(** In a legacy run with no descriptor, the [d] tag of the printed event is
    the SHA-256 of the bytes of the video file, in hexadecimal. *)
Lemma main_d_tag_is_content_hash {S Conn : Type} (net : Network S Conn) w fuel
      args s s' tr out msg event :
  Nip71.main net w fuel args s = Some (s', tr, out) ->
  In (APrintln msg event) tr ->
  Nip71.isLegacy args = true ->
  Nip71.descriptor args = "" ->
  exists videoPath file,
    osOpen w videoPath = Ok file /\
    tagValue "d" (Tags_ event)
    = Some (hexEncode (sha256Sum w (contents file))).
Proof.
  intros H Hin Hlegacy Hdesc.
  destruct (main_printed net w fuel args s s' tr out msg event H Hin)
    as (f & signer & f' & videoPath & temp & info & built & Hparse & Hfetch
        & _ & Hinfo & Hbuilt & Hsign).
  apply parseAndInitParams_mode in Hparse as [Hd1 Hl1].
  apply fetchVideo_mode in Hfetch as [Hd2 Hl2].
  apply SignEvent_keeps in Hsign as (-> & _).
  apply createNip71Event_shape in Hbuilt as (alt & extra & _ & _ & ->).
  apply ExtractMediaInfo_hash in Hinfo as (file & Hopen & Hhash & _).
  exists videoPath, file. split; [exact Hopen|].
  rewrite Hl2, Hl1, Hlegacy, Hd2, Hd1, Hdesc, Hhash. reflexivity.
Qed.

(** ** What the picture command prints *)

Lemma addImageIMetaTag_pictureTag w imagePath imageURL tag :
  Nip68.addImageIMetaTag w imagePath imageURL = Return tag -> pictureTag tag.
Proof.
  unfold Nip68.addImageIMetaTag.
  destruct (ExtractMediaInfo w imagePath "image") as [info|]; [|discriminate].
  intros [= <-]. split; reflexivity.
Qed.

Lemma uploadImages_pictureTags w signer files :
  forall f imetaTags f' imetaTags',
    Nip68.uploadImages w signer f files imetaTags = Return (f', imetaTags') ->
    Forall pictureTag imetaTags -> Forall pictureTag imetaTags'.
Proof.
  induction files as [|imageFile rest IH]; intros f imetaTags f' imetaTags' H Hall;
    simpl in H.
  - injection H as <- <-. exact Hall.
  - destruct (UploadFile w (Nip68.blossom f) imageFile signer) as [uploadInfo|];
      [|discriminate].
    destruct (uploadInfo !! "url") as [[imageURL| |]|]; try discriminate.
    destruct (Nip68.addImageIMetaTag w imageFile imageURL) as [tag| |] eqn:Htag;
      try discriminate.
    apply addImageIMetaTag_pictureTag in Htag.
    eapply IH; [exact H|]. apply Forall_app. split; [exact Hall|].
    constructor; [exact Htag|constructor].
Qed.

Lemma downloadImages_pictureTags w urls :
  forall imetaTags deferred imetaTags' deferred',
    Nip68.downloadImages w urls imetaTags deferred
    = Return (imetaTags', deferred') ->
    Forall pictureTag imetaTags ->
    Forall (fun a => isPrintln a = false) deferred ->
    Forall pictureTag imetaTags' /\
    Forall (fun a => isPrintln a = false) deferred'.
Proof.
  induction urls as [|imageURL rest IH];
    intros imetaTags deferred imetaTags' deferred' H Hall Hdef; simpl in H.
  - injection H as <- <-. split; assumption.
  - destruct (DownloadVideo w imageURL) as [imagePath|]; [|discriminate].
    destruct (Nip68.addImageIMetaTag w imagePath imageURL) as [tag| |] eqn:Htag;
      try discriminate.
    apply addImageIMetaTag_pictureTag in Htag.
    eapply IH; [exact H| |].
    + apply Forall_app. split; [exact Hall|].
      constructor; [exact Htag|constructor].
    + constructor; [reflexivity|exact Hdef].
Qed.

Lemma fold_left_append (imetaTags : Tags) :
  forall tags : Tags,
    fold_left (fun tags imeta => tags ++ [imeta]) imetaTags tags
    = tags ++ imetaTags.
Proof.
  induction imetaTags as [|imeta rest IH]; intros tags; simpl.
  - rewrite app_nil_r. reflexivity.
  - rewrite IH, <- app_assoc. reflexivity.
Qed.

(** The shape of every event [createNip68Event] returns: title, publish
    time, the [imeta] tags in the order given, and the nonce tag when work
    was done. *)
Lemma createNip68Event_shape w fuel f signer imetaTags title publishedAt
      description event :
  Nip68.createNip68Event w fuel f signer imetaTags title publishedAt description
  = Some (Ok event) ->
  exists extra,
    (extra = [] \/ exists nonce, extra = [nonceTag nonce (Nip68.diff f)]) /\
    Tags_ event
    = [["title"; title]; ["published_at"; publishedAt]] ++ imetaTags ++ extra.
Proof.
  unfold Nip68.createNip68Event. intros H.
  destruct (GetPublicKey signer) as [pubKey|]; [|discriminate].
  match type of H with
  | match Pow ?w ?fuel ?e ?d with _ => _ end = _ =>
      destruct (Pow w fuel e d) as [[e'|]|] eqn:Hpow; try discriminate;
      apply Pow_fields in Hpow as (_ & _ & _ & _ & Htags)
  end.
  injection H as <-. simpl in Htags. rewrite fold_left_append in Htags.
  destruct Htags as [Htags|[nonce Htags]].
  - exists []. split; [auto|]. rewrite Htags, app_nil_r. reflexivity.
  - exists [nonceTag nonce (Nip68.diff f)]. split; [eauto|].
    rewrite Htags. simpl. try rewrite <- app_assoc. reflexivity.
Qed.


(** ** The order of the [imeta] sub-entries *)



(** * Further properties of the code *)

(** ** The relay publisher as a whole *)

Lemma countAuth_app acts acts' :
  countAuth (acts ++ acts') = (countAuth acts + countAuth acts')%nat.
Proof. unfold countAuth. rewrite filter_app, length_app. reflexivity. Qed.




Section PublisherFacts.

Context {S Conn : Type} (net : Network S Conn).
Variables (event : Event) (signer : Keyer).



Lemma runDeferred_closes deferred :
  forall s, snd (runDeferred net s deferred) = map AClose (map fst deferred).
Proof.
  induction deferred as [|[relayURL relay] rest IH]; intros s; [reflexivity|].
  simpl. specialize (IH (relayClose net s relay)).
  destruct (runDeferred net (relayClose net s relay) rest) as [s' acts].
  simpl in *. rewrite IH. reflexivity.
Qed.

Lemma closes_counts (urls : list string) :
  countAuth (map AClose urls) = 0%nat /\
  countPublish (map AClose urls) = 0%nat /\
  closed (map AClose urls) = urls /\
  publishedTo (map AClose urls) = [].
Proof.
  induction urls as [|url rest (IH1 & IH2 & IH3 & IH4)]; [repeat split|].
  repeat split; cbn; try assumption. rewrite IH3. reflexivity.
Qed.

End PublisherFacts.



Section SignerFacts.

Context {S Conn : Type} (net : Network S Conn).
Variable event : Event.

Hypothesis no_challenge :
  forall s relay s' err,
    relayPublish net s relay event = (s', Some err) ->
    HasPrefix err authRequired = false.

Lemma publishToRelay_signer_free signer signer' s relayURL :
  publishToRelay net event signer s relayURL
  = publishToRelay net event signer' s relayURL /\
  countAuth (snd (fst (publishToRelay net event signer s relayURL))) = 0%nat.
Proof.
  unfold publishToRelay.
  destruct (RelayConnect net s relayURL) as [s1 [relay|err]]; [|split; reflexivity].
  destruct (relayPublish net s1 relay event) as [s2 [err|]] eqn:Hpub;
    [|split; reflexivity].
  rewrite (no_challenge _ _ _ _ Hpub). split; reflexivity.
Qed.

Lemma publishLoop_signer_free signer signer' relays :
  forall s deferred,
    publishLoop net event signer s relays deferred
    = publishLoop net event signer' s relays deferred /\
    countAuth (snd (fst (publishLoop net event signer s relays deferred)))
    = 0%nat.
Proof.
  induction relays as [|relayURL rest IH]; intros s deferred;
    [split; reflexivity|].
  simpl.
  destruct (publishToRelay_signer_free signer signer' s relayURL) as [<- Hzero].
  destruct (publishToRelay net event signer s relayURL) as [[s' acts] opened].
  match goal with
  | |- context [publishLoop net event signer s' rest ?d] =>
      destruct (IH s' d) as [<- Hzero'];
      destruct (publishLoop net event signer s' rest d) as [[s'' acts'] d'']
  end.
  simpl in *. split; [reflexivity|]. rewrite countAuth_app. lia.
Qed.

End SignerFacts.

(** When no relay answers a publish with the auth-required prefix, the
    signer plays no part in publishing: no authentication call is made and
    [PublishEvent] does the same with any signer. *)
Theorem PublishEvent_signs_only_on_challenge :
  forall {S Conn : Type} (net : Network S Conn) (event : Event)
         (signer signer' : Keyer) (s : S) (relays : list string),
    (forall s relay s' err,
        relayPublish net s relay event = (s', Some err) ->
        HasPrefix err authRequired = false) ->
    PublishEvent net event signer s relays
    = PublishEvent net event signer' s relays /\
    countAuth (snd (PublishEvent net event signer s relays)) = 0%nat.
Proof.
  intros S Conn net event signer signer' s relays Hno. unfold PublishEvent.
  destruct (publishLoop_signer_free net event Hno signer signer' relays s [])
    as [<- Hzero].
  destruct (publishLoop net event signer s relays []) as [[s' acts] deferred].
  pose proof (runDeferred_closes net deferred s') as Hclose.
  destruct (runDeferred net s' deferred) as [s'' closes].
  simpl in *. subst closes. split; [reflexivity|].
  rewrite countAuth_app, Hzero.
  destruct (closes_counts (map fst deferred)) as (-> & _). reflexivity.
Qed.

Lemma PublishEvent_signs_only_on_challenge_witness :
  PublishEvent busyNetwork someEvent signer tt
    ["wss://one.example"; "wss://two.example"]
  = PublishEvent busyNetwork someEvent (mkKeyer (Err "no key") (fun _ => Err "no key"))
      tt ["wss://one.example"; "wss://two.example"].
Proof.
  refine (proj1 (PublishEvent_signs_only_on_challenge busyNetwork someEvent
                   signer (mkKeyer (Err "no key") (fun _ => Err "no key")) tt
                   ["wss://one.example"; "wss://two.example"] _)).
  intros s relay s' err H. simpl in H. injection H as _ <-. reflexivity.
Defined.

(** ** The authorization event, for any verb *)

Lemma append_tags_fold (tags : Tags) :
  forall event : Event,
    fold_left (fun ev tag => setTags ev (Tags_ ev ++ [tag])) tags event
    = setTags event (Tags_ event ++ tags).
Proof.
  induction tags as [|tag rest IH]; intros event; simpl.
  - rewrite app_nil_r. destruct event. reflexivity.
  - rewrite IH. simpl. rewrite <- app_assoc. reflexivity.
Qed.

(** Whenever [createAuthorizationEvent] returns, what it returns is the
    base64 of the JSON of a signed event of kind 24242 with the content
    "Upload file", whose tags are the verb tag followed by the tags given,
    in the order given, and which was handed to the signer with the signer's
    own public key in place. *)
Theorem createAuthorizationEvent_verb_then_tags :
  forall (w : World) (signer : Keyer) (verb : string) (tags : Tags)
         (encoded : string),
    createAuthorizationEvent w signer verb tags = Ok encoded ->
    exists pubKeyHex event json,
      GetPublicKey signer = Ok pubKeyHex /\
      SignEvent signer
        (mkEvent "" pubKeyHex (nowAtAuthEvent w) 24242 (["t"; verb] :: tags)
           "Upload file" "") = Ok event /\
      Kind event = 24242 /\
      Content event = "Upload file" /\
      Tags_ event = ["t"; verb] :: tags /\
      jsonMarshal w event = Ok json /\
      encoded = base64Encode w json.
Proof.
  intros w signer verb tags encoded H.
  unfold createAuthorizationEvent, signedAuthorizationEvent,
    newAuthorizationEvent in H.
  rewrite append_tags_fold in H. simpl in H.
  destruct (GetPublicKey signer) as [pubKeyHex|]; [|discriminate].
  unfold setPubKey in H. simpl in H.
  match type of H with
  | context [SignEvent signer ?e] =>
      destruct (SignEvent signer e) as [event|] eqn:Hsign; [|discriminate]
  end.
  destruct (jsonMarshal w event) as [json|] eqn:Hjson; [|discriminate].
  injection H as <-. exists pubKeyHex, event, json.
  pose proof (SignEvent_keeps _ _ _ Hsign) as (Htags & Hkind & Hcontent & _).
  repeat split; assumption.
Qed.

Lemma createAuthorizationEvent_witness :
  exists event,
    Kind event = 24242 /\
    Tags_ event = [["t"; "delete"]; ["x"; "00ff"]].
Proof.
  destruct (createAuthorizationEvent_verb_then_tags world signer "delete"
              [["x"; "00ff"]] "event-json" eq_refl)
    as (pk & event & json & _ & _ & Hkind & _ & Htags & _).
  exists event. split; assumption.
Defined.

(** ** Fingerprinting *)

Lemma GetMediaDimensions_inv w filePath fileType width height bhash mime :
  GetMediaDimensions w filePath fileType = Ok (width, height, bhash, mime) ->
  exists file,
    osOpen w filePath = Ok file /\
    contents file <> "" /\
    filetypeMatch w (readHead (contents file)) = Ok mime /\
    mime <> "" /\
    ((fileType = "image" /\ HasPrefix mime "image" = true /\
      GetImageDimensions w filePath = Ok (width, height, bhash)) \/
     (fileType = "video" /\ HasPrefix mime "video" = true /\
      GetVideoDimensions w filePath = Ok (width, height, bhash))).
Proof.
  unfold GetMediaDimensions. intros H.
  destruct (osOpen w filePath) as [file|]; [|discriminate].
  destruct (String.eqb_spec (contents file) "") as [|Hne]; [discriminate|].
  destruct (filetypeMatch w (readHead (contents file))) as [kind|] eqn:Hkind;
    [|discriminate].
  destruct (String.eqb_spec kind "") as [|Hknown]; [discriminate|].
  destruct (HasPrefix kind "image") eqn:Himg;
    destruct (String.eqb_spec fileType "image") as [Hty|Hty]; simpl in H.
  - destruct (GetImageDimensions w filePath) as [[[wd h] b]|] eqn:Hdim;
      [|discriminate].
    injection H as <- <- <- <-. exists file. repeat split; auto.
  - destruct (HasPrefix kind "video" && String.eqb fileType "video") eqn:Hv;
      [|discriminate].
    apply andb_true_iff in Hv as [Hv1 Hv2]. apply String.eqb_eq in Hv2.
    destruct (GetVideoDimensions w filePath) as [[[wd h] b]|] eqn:Hdim;
      [|discriminate].
    injection H as <- <- <- <-. exists file. repeat split; auto.
  - destruct (HasPrefix kind "video" && String.eqb fileType "video") eqn:Hv;
      [|discriminate].
    apply andb_true_iff in Hv as [Hv1 Hv2]. apply String.eqb_eq in Hv2.
    destruct (GetVideoDimensions w filePath) as [[[wd h] b]|] eqn:Hdim;
      [|discriminate].
    injection H as <- <- <- <-. exists file. repeat split; auto.
  - destruct (HasPrefix kind "video" && String.eqb fileType "video") eqn:Hv;
      [|discriminate].
    apply andb_true_iff in Hv as [Hv1 Hv2]. apply String.eqb_eq in Hv2.
    destruct (GetVideoDimensions w filePath) as [[[wd h] b]|] eqn:Hdim;
      [|discriminate].
    injection H as <- <- <- <-. exists file. repeat split; auto.
Qed.



(** The fingerprint [ExtractMediaInfo] returns: the content hash is the
    SHA-256 of all the bytes of the file, two lower-case hexadecimal digits
    for each byte of the digest; the size is the one [Stat] reports; the
    MIME type is the one sniffed from the head of the file, and the file is
    not empty. *)
Theorem ExtractMediaInfo_fingerprint :
  forall (w : World) (imagePath fileType : string) (info : MediaInfo),
    ExtractMediaInfo w imagePath fileType = Ok info ->
    exists file,
      osOpen w imagePath = Ok file /\
      contents file <> "" /\
      fileHash info = hexEncode (sha256Sum w (contents file)) /\
      String.length (fileHash info)
      = (2 * String.length (sha256Sum w (contents file)))%nat /\
      statSize file = Ok (fileSize info) /\
      filetypeMatch w (readHead (contents file)) = Ok (mime info) /\
      HasPrefix (mime info) fileType = true.
Proof.
  intros w imagePath fileType info H.
  pose proof (ExtractMediaInfo_hash _ _ _ _ H) as (file & Hopen & Hhash & Hstat).
  unfold ExtractMediaInfo in H.
  destruct (GetMediaDimensions w imagePath fileType)
    as [[[[width height] bhash] mime]|] eqn:Hdim; [|discriminate].
  rewrite Hopen in H. destruct (copyErr file); [discriminate|].
  destruct (statSize file) as [size|] eqn:Hsize; [|discriminate].
  injection H as <-. simpl.
  apply GetMediaDimensions_inv in Hdim
    as (file' & Hopen' & Hne & Hmime & _ & Hclass).
  rewrite Hopen in Hopen'. injection Hopen' as <-.
  exists file.
  split; [exact Hopen|]. split; [exact Hne|]. split; [reflexivity|].
  split; [apply hexEncode_length|]. split; [exact Hsize|].
  split; [exact Hmime|].
  destruct Hclass as [(-> & Hpre & _)|(-> & Hpre & _)]; exact Hpre.
Qed.

Lemma ExtractMediaInfo_witness :
  exists info,
    ExtractMediaInfo world "video.mp4" "video" = Ok info /\
    fileHash info = "64617461" /\ fileSize info = 4.
Proof.
  assert (Hrun : exists info, ExtractMediaInfo world "video.mp4" "video" = Ok info)
    by (vm_compute; eauto).
  destruct Hrun as [info Hrun].
  destruct (ExtractMediaInfo_fingerprint world "video.mp4" "video" info Hrun)
    as (file & Hopen & _ & Hhash & _ & Hstat & _).
  exists info. split; [exact Hrun|].
  vm_compute in Hopen. injection Hopen as <-.
  split; [exact Hhash|]. simpl in Hstat. injection Hstat as <-. reflexivity.
Defined.



(** [DownloadVideo] returns a path exactly when the server answered 200 or
    206, a temporary file could be created and the body was copied into it;
    the path is that of the temporary file. *)
Theorem DownloadVideo_only_200_206 :
  forall (w : World) (videoURL path : string),
    DownloadVideo w videoURL = Ok path <->
    exists resp,
      httpGet w videoURL = Ok resp /\
      (StatusCode resp = 200 \/ StatusCode resp = 206) /\
      osCreateTemp w = Ok path /\
      ioCopyToFile w path (Body resp) = None.
Proof.
  intros w videoURL path. unfold DownloadVideo. split.
  - intros H. destruct (httpGet w videoURL) as [resp|]; [|discriminate].
    exists resp.
    destruct (Z.eqb_spec (StatusCode resp) 200) as [H200|H200];
      destruct (Z.eqb_spec (StatusCode resp) 206) as [H206|H206];
      simpl in H; try discriminate;
      (destruct (osCreateTemp w) as [name|]; [|discriminate]);
      (destruct (ioCopyToFile w name (Body resp)) eqn:Hcopy; [discriminate|]);
      injection H as <-; repeat split; auto.
  - intros (resp & -> & Hstatus & -> & ->).
    destruct Hstatus as [->| ->]; reflexivity.
Qed.

(** ** Timestamps: what is written can be read back *)

Lemma parseDigits_of_uint_acc d :
  forall acc : positive,
    parseDigits (NilEmpty.string_of_uint d) (Zpos acc)
    = Some (Zpos (Pos.of_uint_acc d acc)).
Proof.
  induction d as [|d IH|d IH|d IH|d IH|d IH|d IH|d IH|d IH|d IH|d IH];
    intros acc; [reflexivity|..];
    cbn [NilEmpty.string_of_uint parseDigits Pos.of_uint_acc];
    match goal with
    | |- context [digitVal ?c] =>
        let v := eval vm_compute in (digitVal c) in
        change (digitVal c) with v
    end;
    cbv iota beta; rewrite <- IH; f_equal; lia.
Qed.

Lemma parseDigits_of_uint d :
  parseDigits (NilEmpty.string_of_uint d) 0 = Some (Z.of_N (Pos.of_uint d)).
Proof.
  induction d as [|d IH|d IH|d IH|d IH|d IH|d IH|d IH|d IH|d IH|d IH];
    [reflexivity|exact IH|..];
    cbn [NilEmpty.string_of_uint parseDigits Pos.of_uint];
    match goal with
    | |- context [digitVal ?c] =>
        let v := eval vm_compute in (digitVal c) in
        change (digitVal c) with v
    end;
    cbv iota beta; apply parseDigits_of_uint_acc.
Qed.

(** The decimal writing of a positive number: digits only, at least one,
    and they read back as the number. *)
Lemma decimal_of_positive p :
  exists c rest,
    NilZero.string_of_uint (Pos.to_uint p) = String c rest /\
    Ascii.eqb c "-"%char = false /\ Ascii.eqb c "+"%char = false /\
    parseDigits (String c rest) 0 = Some (Zpos p).
Proof.
  pose proof (parseDigits_of_uint (Pos.to_uint p)) as Hparse.
  rewrite DecimalPos.Unsigned.of_to in Hparse. simpl Z.of_N in Hparse.
  assert (Hsame : NilZero.string_of_uint (Pos.to_uint p)
                  = NilEmpty.string_of_uint (Pos.to_uint p)).
  { destruct (Pos.to_uint p); [discriminate Hparse|reflexivity..]. }
  rewrite Hsame.
  destruct (NilEmpty.string_of_uint (Pos.to_uint p)) as [|c rest];
    [discriminate Hparse|].
  exists c, rest. split; [reflexivity|].
  assert (Hdigit : exists d, digitVal c = Some d).
  { simpl in Hparse. destruct (digitVal c); [eauto|discriminate]. }
  destruct Hdigit as [d Hdigit].
  repeat split; try exact Hparse.
  - destruct (Ascii.eqb_spec c "-"%char) as [->|]; [|reflexivity].
    vm_compute in Hdigit. discriminate.
  - destruct (Ascii.eqb_spec c "+"%char) as [->|]; [|reflexivity].
    vm_compute in Hdigit. discriminate.
Qed.

(** [ParseInt] reads back what [%d] writes, for every 64-bit integer. *)
Lemma ParseInt_Itoa n : - 2 ^ 63 <= n < 2 ^ 63 -> ParseInt (Itoa n) = inr n.
Proof.
  intros Hrange. destruct n as [|p|p].
  - reflexivity.
  - destruct (decimal_of_positive p) as (c & rest & Hs & Hminus & Hplus & Hparse).
    unfold Itoa. cbn [Z.to_int NilZero.string_of_int]. rewrite Hs.
    unfold ParseInt. rewrite Hminus, Hplus. cbn [orb negb andb].
    rewrite Hparse.
    destruct (2 ^ 63 <=? Z.pos p) eqn:Hcut;
      [apply Z.leb_le in Hcut; lia|reflexivity].
  - destruct (decimal_of_positive p) as (c & rest & Hs & Hminus & Hplus & Hparse).
    unfold Itoa. cbn [Z.to_int NilZero.string_of_int]. rewrite Hs.
    unfold ParseInt.
    change (Ascii.eqb "-" "-") with true.
    change (Ascii.eqb "-" "+") with false.
    cbn [orb negb andb]. rewrite Hparse.
    destruct (2 ^ 63 <? Z.pos p) eqn:Hcut;
      [apply Z.ltb_lt in Hcut; lia|reflexivity].
Qed.

Lemma parseAndInitParams_publishedAt w args f signer :
  Nip71.parseAndInitParams w args = Return (f, signer) ->
  Nip71.publishedAt f
  = (if String.eqb (Nip71.publishedAt args) ""
     then Itoa (nowAtParse w) else Nip71.publishedAt args).
Proof.
  unfold Nip71.parseAndInitParams. intros H.
  destruct (String.eqb (Nip71.description args) "");
    cbn [Nip71.publishedAt Nip71.setDescription] in H;
    destruct (String.eqb (Nip71.publishedAt args) "");
    repeat match type of H with
           | context [if ?b then _ else _] => destruct b
           | context [match nip19Decode ?w ?k with _ => _ end] =>
               destruct (nip19Decode w k) as [[? []]|]
           | context [match NewPlainKeySigner ?w ?k with _ => _ end] =>
               destruct (NewPlainKeySigner w k)
           end; simpl in H; try discriminate; injection H as <- <-;
    reflexivity.
Qed.

(** The publish time after [parseAndInitParams]: a time given with
    [-published_at] is kept as it is; when none is given, the clock is
    written in decimal, and then the timestamp check of [ValidateInput]
    cannot fail, so that validation depends on the URL alone. *)
Theorem default_publish_time_validates :
  forall (w : World) (args f : Nip71.Flags) (signer : Keyer),
    Nip71.parseAndInitParams w args = Return (f, signer) ->
    (Nip71.publishedAt args <> "" ->
     Nip71.publishedAt f = Nip71.publishedAt args) /\
    (Nip71.publishedAt args = "" ->
     - 2 ^ 63 <= nowAtParse w < 2 ^ 63 ->
     Nip71.publishedAt f = Itoa (nowAtParse w) /\
     ParseInt (Nip71.publishedAt f) = inr (nowAtParse w) /\
     forall videoURL title,
       ValidateInput w videoURL title (Nip71.publishedAt f) = None <->
       videoURL <> "" /\ ParseRequestURI w videoURL = None).
Proof.
  intros w args f signer H.
  apply parseAndInitParams_publishedAt in H. split.
  - intros Hgiven. rewrite H.
    destruct (String.eqb_spec (Nip71.publishedAt args) ""); congruence.
  - intros Hnone Hclock. rewrite Hnone in H. simpl in H.
    pose proof (ParseInt_Itoa _ Hclock) as Hround. rewrite <- H in Hround.
    split; [exact H|]. split; [exact Hround|].
    intros videoURL title. rewrite ValidateInput_ok_iff. split.
    + intros (Hurl & Huri & _). split; assumption.
    + intros (Hurl & Huri). repeat split; eauto.
Qed.

Lemma default_publish_time_witness :
  ValidateInput world "https://example.com/v.mp4" "" "1700000000" = None.
Proof.
  assert (Hparse : exists f signer,
             Nip71.parseAndInitParams world videoFlags = Return (f, signer) /\
             Nip71.publishedAt f = "1700000000")
    by (vm_compute; eauto).
  destruct Hparse as (f & signer & Hparse & Hat).
  destruct (default_publish_time_validates world videoFlags f signer Hparse)
    as [_ Hdefault].
  destruct (Hdefault eq_refl) as (_ & _ & Hvalid).
  - simpl. lia.
  - rewrite <- Hat. apply Hvalid. split; [discriminate|reflexivity].
Defined.

(** ** A file given with [-file] *)

(** After a successful upload the video command takes the URL of the video
    from the [url] entry of the descriptor, whatever [-url] said, and the
    publish time from the [uploaded] entry, or from the clock when that
    entry is missing or not a number, whatever [-published_at] said; the
    file fingerprinted is the local file and nothing is downloaded.  A
    descriptor without a string under [url] makes the command panic. *)
Theorem upload_overrides_url_and_time :
  forall (w : World) (f : Nip71.Flags) (signer : Keyer)
         (uploadInfo : gmap string any),
    Nip71.videoFile f <> "" ->
    UploadFile w (Nip71.blossom f) (Nip71.videoFile f) signer = Ok uploadInfo ->
    (forall url,
        uploadInfo !! "url" = Some (AnyString url) ->
        exists f',
          Nip71.fetchVideo w f signer = Return (f', Nip71.videoFile f, None) /\
          Nip71.videoURL f' = url /\
          Nip71.title f' = Nip71.title f /\
          (forall t, uploadInfo !! "uploaded" = Some (AnyFloat64 t) ->
                     Nip71.publishedAt f' = Itoa t) /\
          ((forall t, uploadInfo !! "uploaded" <> Some (AnyFloat64 t)) ->
           Nip71.publishedAt f' = Itoa (nowAfterUpload w))) /\
    ((forall url, uploadInfo !! "url" <> Some (AnyString url)) ->
     Nip71.fetchVideo w f signer = Panic).
Proof.
  intros w f signer uploadInfo Hfile Hupload.
  assert (Hset : negb (String.eqb (Nip71.videoFile f) "") = true).
  { destruct (String.eqb_spec (Nip71.videoFile f) ""); [contradiction|reflexivity]. }
  unfold Nip71.fetchVideo. rewrite Hset, Hupload. split.
  - intros url ->.
    destruct (uploadInfo !! "uploaded") as [[s|t|]|] eqn:Hup;
      eexists; (split; [reflexivity|]); repeat split;
      try (intros t' [= <-]; reflexivity); try discriminate;
      try (intros Hnot; reflexivity).
    intros Hnot. exfalso. apply (Hnot t). reflexivity.
  - intros Hnone. destruct (uploadInfo !! "url") as [[url| |]|] eqn:Hurl;
      try reflexivity.
    exfalso. apply (Hnone url). reflexivity.
Qed.

Lemma upload_overrides_witness :
  exists f',
    Nip71.fetchVideo world fileFlags signer = Return (f', "video.mp4", None) /\
    Nip71.videoURL f' = "https://cdn.example/data" /\
    Nip71.fetchVideo worldNoURL fileFlags signer = Panic.
Proof.
  assert (Hup : exists info,
             UploadFile world "https://cdn.nostrcheck.me" "video.mp4" signer
             = Ok info /\
             info !! "url" = Some (AnyString "https://cdn.example/data"))
    by (vm_compute; eauto).
  destruct Hup as (info & Hup & Hurl).
  destruct (upload_overrides_url_and_time world fileFlags signer info)
    as [Hgood _]; [discriminate|exact Hup|].
  destruct (Hgood _ Hurl) as (f' & Hfetch & Hvideo & _).
  exists f'. split; [exact Hfetch|]. split; [exact Hvideo|].
  assert (Hup' : exists info',
             UploadFile worldNoURL "https://cdn.nostrcheck.me" "video.mp4"
               signer = Ok info' /\
             forall url, info' !! "url" <> Some (AnyString url)).
  { exists ∅. split; [vm_compute; reflexivity|]. intros url. discriminate. }
  destruct Hup' as (info' & Hup' & Hnone).
  destruct (upload_overrides_url_and_time worldNoURL fileFlags signer info')
    as [_ Hpanic]; [discriminate|exact Hup'|].
  apply Hpanic. exact Hnone.
Defined.

(** ** The video command, stage by stage *)


Section StageFacts.

Context {S Conn : Type} (net : Network S Conn).





(** Every run of the video command either stops before anything is printed,
    with nothing observed, or reaches the last stage with a signed event
    built from the flags and the fingerprint of the video. *)
Lemma main_cases w fuel args s s' tr out :
  Nip71.main net w fuel args s = Some (s', tr, out) ->
  (tr = [] /\ s' = s /\ out <> Return tt) \/
  exists f signer f' videoPath temp info built event,
    Nip71.parseAndInitParams w args = Return (f, signer) /\
    Nip71.fetchVideo w f signer = Return (f', videoPath, temp) /\
    ValidateInput w (Nip71.videoURL f') (Nip71.title f')
      (Nip71.publishedAt f') = None /\
    ExtractMediaInfo w videoPath "video" = Ok info /\
    Nip71.createNip71Event w fuel f' signer (height info) (width info)
      (fileSize info) (fileHash info) (bhash info) (mime info)
      (Nip71.title f') (Nip71.publishedAt f') (Nip71.videoURL f')
      (Nip71.description f') (Nip71.descriptor f') = Some (Ok built) /\
    SignEvent signer built = Ok event /\
    videoPublishStage net w f' signer event
      (match temp with Some path => [ARemove path] | None => [] end) s
    = (s', tr, out).
Proof.
  intros H. unfold Nip71.main in H.
  destruct (Nip71.parseAndInitParams w args) as [[f signer]| |] eqn:Hparse;
    try (injection H as <- <- <-; left; repeat split; discriminate).
  destruct (String.eqb (Nip71.videoURL f) "" && String.eqb (Nip71.videoFile f) "");
    try (injection H as <- <- <-; left; repeat split; discriminate).
  destruct (Nip71.fetchVideo w f signer) as [[[f' videoPath] temp]| |] eqn:Hfetch;
    try (injection H as <- <- <-; left; repeat split; discriminate).
  destruct (ValidateInput w (Nip71.videoURL f') (Nip71.title f')
              (Nip71.publishedAt f')) eqn:Hvalid;
    try (injection H as <- <- <-; left; repeat split; discriminate).
  destruct (ExtractMediaInfo w videoPath "video") as [info|] eqn:Hinfo;
    try (injection H as <- <- <-; left; repeat split; discriminate).
  match type of H with
  | match ?c with _ => _ end = _ => destruct c as [[built|]|] eqn:Hbuilt
  end; try discriminate;
    try (injection H as <- <- <-; left; repeat split; discriminate).
  destruct (SignEvent signer built) as [event|] eqn:Hsign;
    try (injection H as <- <- <-; left; repeat split; discriminate).
  right. exists f, signer, f', videoPath, temp, info, built, event.
  repeat (split; [reflexivity || assumption|]).
  unfold videoPublishStage.
  destruct (negb (String.eqb (Nip71.relay f') "")
            || negb (String.eqb (Nip71.r f') "")); [|congruence].
  destruct (Nip71.loadRelays w (Nip71.relay f')) as [relays| |];
    try congruence.
  destruct (if (length relays =? 0)%nat
            then Nip71.loadRelays w (Nip71.r f')
            else Return relays) as [relays'| |]; try congruence.
  destruct (0 <? length relays')%nat; [|congruence].
  destruct (PublishEvent net event signer s relays') as [s1 acts]. congruence.
Qed.

End StageFacts.

Lemma loadRelays_uri w relayParam :
  HasPrefix relayParam "ws://" = true \/ HasPrefix relayParam "wss://" = true ->
  Nip71.loadRelays w relayParam = Return [relayParam] /\ relayParam <> "".
Proof.
  intros Hprefix. unfold Nip71.loadRelays. split.
  - destruct Hprefix as [-> | ->]; [reflexivity|].
    destruct (HasPrefix relayParam "ws://"); reflexivity.
  - intros ->. destruct Hprefix; discriminate.
Qed.



Lemma cleanup_facts (temp : option string) :
  let cleanup :=
    match temp with Some path => [ARemove path] | None => [] end in
  dialed cleanup = [] /\
  removed cleanup = match temp with Some path => [path] | None => [] end.
Proof. destruct temp; split; reflexivity. Qed.

(** Which relays the video command publishes to, in a run that has printed
    its event.  A [-relay] that is a [ws://] or [wss://] URI is the one
    relay dialed and [-r] is not looked at; when [-relay] resolves to
    nothing and [-r] is such a URI, that one is dialed; with neither flag
    given no relay is dialed and the network is left alone.  In all three
    cases the run ends normally, whatever the relay answers. *)
Theorem relay_flag_before_short_flag :
  forall {S Conn : Type} (net : Network S Conn) (w : World) (fuel : nat)
         (args : Nip71.Flags) (s s' : S) (tr : list Action) (out : run unit)
         (msg : string) (event : Event),
    Nip71.main net w fuel args s = Some (s', tr, out) ->
    In (APrintln msg event) tr ->
    ((HasPrefix (Nip71.relay args) "ws://" = true
      \/ HasPrefix (Nip71.relay args) "wss://" = true) ->
     out = Return tt /\ dialed tr = [Nip71.relay args]) /\
    (unresolvable w (Nip71.relay args) ->
     (HasPrefix (Nip71.r args) "ws://" = true
      \/ HasPrefix (Nip71.r args) "wss://" = true) ->
     out = Return tt /\ dialed tr = [Nip71.r args]) /\
    (Nip71.relay args = "" -> Nip71.r args = "" ->
     out = Return tt /\ dialed tr = [] /\ s' = s).
Proof.
  intros S Conn net w fuel args s s' tr out msg event H Hin.
  destruct (main_cases net w fuel args s s' tr out H)
    as [(-> & _)|(f & signer & f' & videoPath & temp & info & built & signed
                  & Hparse & Hfetch & _ & _ & _ & _ & Hstage)];
    [contradiction|].
  apply parseAndInitParams_relays in Hparse as [Hrel1 Hr1].
  apply fetchVideo_relays in Hfetch as [Hrel2 Hr2].
  rewrite Hrel1 in Hrel2. rewrite Hr1 in Hr2.
  destruct (cleanup_facts temp) as [Hdial _].
  unfold videoPublishStage in Hstage. rewrite Hrel2, Hr2 in Hstage.
  split; [|split].
  - intros Hprefix. apply loadRelays_uri with (w := w) in Hprefix as [Hload Hne].
    destruct (String.eqb_spec (Nip71.relay args) ""); [contradiction|].
    cbn [negb orb] in Hstage. rewrite Hload in Hstage.
    cbn [length Nat.eqb Nat.ltb Nat.leb] in Hstage.
    pose proof (PublishEvent_dialed net signed signer s [Nip71.relay args])
      as Hpub.
    destruct (PublishEvent net signed signer s [Nip71.relay args]) as [s1 acts].
    injection Hstage as <- <- <-. split; [reflexivity|].
    simpl in Hpub. simpl. rewrite dialed_app, Hpub, Hdial. reflexivity.
  - intros Hnone Hprefix.
    apply loadRelays_uri with (w := w) in Hprefix as [Hload Hne].
    rewrite (loadRelays_unresolvable _ _ Hnone), Hload in Hstage.
    destruct (String.eqb_spec (Nip71.r args) ""); [contradiction|].
    rewrite orb_true_r in Hstage.
    cbn [length Nat.eqb Nat.ltb Nat.leb] in Hstage.
    pose proof (PublishEvent_dialed net signed signer s [Nip71.r args]) as Hpub.
    destruct (PublishEvent net signed signer s [Nip71.r args]) as [s1 acts].
    injection Hstage as <- <- <-. split; [reflexivity|].
    simpl in Hpub. simpl. rewrite dialed_app, Hpub, Hdial. reflexivity.
  - intros Hrel Hr. rewrite Hrel, Hr in Hstage. cbn in Hstage.
    injection Hstage as <- <- <-. repeat split. exact Hdial.
Qed.

Lemma relay_flag_before_short_flag_witness :
  exists s' tr,
    Nip71.main network world 10 relayFlags [] = Some (s', tr, Return tt) /\
    dialed tr = ["wss://ok.example"].
Proof.
  assert (Hrun : exists s' event rest,
             Nip71.main network world 10 relayFlags []
             = Some (s', APrintln "Generated Event Data:" event :: rest,
                     Return tt)) by (vm_compute; eauto).
  destruct Hrun as (s' & event & rest & Hrun).
  destruct (relay_flag_before_short_flag network world 10 relayFlags [] s'
              _ (Return tt) "Generated Event Data:" event Hrun)
    as [Hfirst _]; [left; reflexivity|].
  destruct Hfirst as [_ Hdial]; [right; reflexivity|].
  eexists. eexists. split; [exact Hrun|exact Hdial].
Defined.





(** ** The printed video event and the fingerprint *)

Lemma createNip71Event_kind w fuel f signer height width fileSize videoHash
      bhash mime title publishedAt videoURL description descriptor event :
  Nip71.createNip71Event w fuel f signer height width fileSize videoHash bhash
    mime title publishedAt videoURL description descriptor = Some (Ok event) ->
  Kind event
  = (if Nip71.isLegacy f then 34235 else 21)
    + (if height >? width then 1 else 0) /\
  Content event = description.
Proof.
  intros H. unfold Nip71.createNip71Event in H.
  destruct (height >? width); destruct (Nip71.isLegacy f); simpl in H;
    (destruct (GetPublicKey signer) as [pubKey|]; [|discriminate]);
    match type of H with
    | match Pow ?w ?fuel ?e ?d with _ => _ end = _ =>
        destruct (Pow w fuel e d) as [[e'|]|] eqn:Hpow; try discriminate;
        apply Pow_fields in Hpow as (Hkind & _ & Hcontent & _)
    end;
    injection H as <-; rewrite Hkind, Hcontent; split; reflexivity.
Qed.

(** The event the video command prints is the fingerprint of the video and
    nothing else: its [imeta] tag carries the MIME type sniffed, the content
    hash, the size and the dimensions written width first, and its kind is
    the vertical one exactly when the frame measured is taller than wide;
    the URL and the publish time it carries have passed validation, so the
    [published_at] tag is always a decimal 64-bit integer. *)
Theorem printed_event_matches_fingerprint :
  forall {S Conn : Type} (net : Network S Conn) (w : World) (fuel : nat)
         (args : Nip71.Flags) (s s' : S) (tr : list Action) (out : run unit)
         (msg : string) (event : Event),
    Nip71.main net w fuel args s = Some (s', tr, out) ->
    In (APrintln msg event) tr ->
    exists videoPath info videoURL publishedAt time alt,
      ExtractMediaInfo w videoPath "video" = Ok info /\
      alt = (if height info >? width info
             then "Vertical Video" else "Horizontal Video") /\
      In ["imeta";
          "url " +:+ videoURL;
          "m " +:+ mime info;
          "alt " +:+ alt;
          "x " +:+ fileHash info;
          "size " +:+ Itoa (fileSize info);
          "dim " +:+ Itoa (width info) +:+ "x" +:+ Itoa (height info);
          "blurhash " +:+ bhash info] (Tags_ event) /\
      Kind event
      = (if Nip71.isLegacy args then 34235 else 21)
        + (if height info >? width info then 1 else 0) /\
      tagValue "alt" (Tags_ event) = Some alt /\
      tagValue "published_at" (Tags_ event) = Some publishedAt /\
      ParseInt publishedAt = inr time /\
      - 2 ^ 63 <= time < 2 ^ 63 /\
      videoURL <> "" /\
      ParseRequestURI w videoURL = None.
Proof.
  intros S Conn net w fuel args s s' tr out msg event H Hin.
  destruct (main_printed net w fuel args s s' tr out msg event H Hin)
    as (f & signer & f' & videoPath & temp & info & built & Hparse & Hfetch
        & Hvalid & Hinfo & Hbuilt & Hsign).
  apply parseAndInitParams_mode in Hparse as [_ Hl1].
  apply fetchVideo_mode in Hfetch as [_ Hl2].
  apply SignEvent_keeps in Hsign as (Htags & Hkind & _).
  pose proof (createNip71Event_kind _ _ _ _ _ _ _ _ _ _ _ _ _ _ _ _ Hbuilt)
    as [Hk _].
  apply createNip71Event_shape in Hbuilt as (alt & extra & Halt & _ & Hshape).
  apply ValidateInput_ok_iff in Hvalid as (Hurl & Huri & time & Htime).
  exists videoPath, info, (Nip71.videoURL f'), (Nip71.publishedAt f'), time, alt.
  rewrite Htags, Hshape, Hkind, Hk, Hl2, Hl1.
  split; [exact Hinfo|]. split; [exact Halt|].
  split; [right; right; right; left; reflexivity|].
  split; [reflexivity|]. split; [reflexivity|]. split; [reflexivity|].
  split; [exact Htime|]. split; [exact (ParseInt_range _ _ Htime)|].
  split; assumption.
Qed.

Lemma printed_event_witness :
  exists event rest publishedAt time,
    Nip71.main network world 10 videoFlags []
    = Some ([], APrintln "Generated Event Data:" event :: rest, Return tt) /\
    tagValue "published_at" (Tags_ event) = Some publishedAt /\
    ParseInt publishedAt = inr time.
Proof.
  assert (Hrun : exists event rest,
             Nip71.main network world 10 videoFlags []
             = Some ([], APrintln "Generated Event Data:" event :: rest,
                     Return tt)) by (vm_compute; eauto).
  destruct Hrun as (event & rest & Hrun).
  destruct (printed_event_matches_fingerprint network world 10 videoFlags []
              [] _ (Return tt) "Generated Event Data:" event Hrun)
    as (videoPath & info & url & publishedAt & time & alt & _ & _ & _ & _ & _
        & Hat & Htime & _);
    [left; reflexivity|].
  exists event, rest, publishedAt, time. repeat split; assumption.
Defined.

(** ** The picture command, stage by stage *)

Lemma picture_parse_keeps w args f signer :
  Nip68.parseAndInitParams w args = Return (f, signer) ->
  Nip68.relay f = Nip68.relay args /\ Nip68.r f = Nip68.r args /\
  Nip68.title f = Nip68.title args /\
  Nip68.imageURLs f = Nip68.imageURLs args /\
  Nip68.imageFiles f = Nip68.imageFiles args /\
  Nip68.diff f = Nip68.diff args.
Proof.
  unfold Nip68.parseAndInitParams. intros H.
  repeat match type of H with
         | context [if ?b then _ else _] => destruct b
         | context [match nip19Decode ?w ?k with _ => _ end] =>
             destruct (nip19Decode w k) as [[? []]|]
         | context [match NewPlainKeySigner ?w ?k with _ => _ end] =>
             destruct (NewPlainKeySigner w k)
         end; simpl in H; try discriminate; injection H as <- <-;
    repeat split.
Qed.

(** The first loop adds one tag for each file, after the tags it was given,
    and changes no flag but the publish time. *)
Lemma uploadImages_appends w signer files :
  forall f imetaTags f' imetaTags',
    Nip68.uploadImages w signer f files imetaTags = Return (f', imetaTags') ->
    (exists new, imetaTags' = imetaTags ++ new /\ length new = length files) /\
    Nip68.relay f' = Nip68.relay f /\ Nip68.r f' = Nip68.r f /\
    Nip68.title f' = Nip68.title f /\
    Nip68.imageURLs f' = Nip68.imageURLs f /\
    Nip68.diff f' = Nip68.diff f.
Proof.
  induction files as [|imageFile rest IH]; intros f imetaTags f' imetaTags' H;
    simpl in H.
  - injection H as <- <-. split; [exists []; rewrite app_nil_r; auto|auto].
  - destruct (UploadFile w (Nip68.blossom f) imageFile signer) as [uploadInfo|];
      [|discriminate].
    destruct (uploadInfo !! "url") as [[imageURL| |]|]; try discriminate.
    destruct (Nip68.addImageIMetaTag w imageFile imageURL) as [tag| |];
      try discriminate.
    apply IH in H as ((new & -> & Hlen) & Hrel & Hr & Htitle & Hurls & Hdiff).
    split.
    + exists (tag :: new). rewrite <- app_assoc. split; [reflexivity|].
      simpl. rewrite Hlen. reflexivity.
    + rewrite Hrel, Hr, Htitle, Hurls, Hdiff.
      destruct (uploadInfo !! "uploaded") as [[| |]|]; repeat split.
Qed.


Lemma picture_loadRelays_unresolvable w relayParam :
  unresolvable w relayParam -> Nip68.loadRelays w relayParam = Return [].
Proof.
  intros (Hws & Hwss & Hstat). unfold Nip68.loadRelays.
  rewrite Hws, Hwss. simpl. destruct (osStat w relayParam); congruence.
Qed.

Section PictureStageFacts.

Context {S Conn : Type} (net : Network S Conn).

Lemma picture_main_cases w fuel args s s' tr out :
  Nip68.main net w fuel args s = Some (s', tr, out) ->
  (tr = [] /\ s' = s /\ out <> Return tt) \/
  exists f signer f' uploaded imetaTags cleanup built event,
    Nip68.parseAndInitParams w args = Return (f, signer) /\
    Nip68.uploadImages w signer f (Nip68.imageFiles f) []
    = Return (f', uploaded) /\
    Nip68.downloadImages w (Nip68.imageURLs f') uploaded []
    = Return (imetaTags, cleanup) /\
    Nip68.createNip68Event w fuel f' signer imetaTags (Nip68.title f')
      (Nip68.publishedAt f') (Nip68.description f') = Some (Ok built) /\
    SignEvent signer built = Ok event /\
    picturePublishStage net w f' signer event cleanup s = (s', tr, out).
Proof.
  intros H. unfold Nip68.main in H.
  destruct (Nip68.parseAndInitParams w args) as [[f signer]| |] eqn:Hparse;
    try (injection H as <- <- <-; left; repeat split; discriminate).
  destruct ((length (Nip68.imageURLs f) =? 0)%nat
            && (length (Nip68.imageFiles f) =? 0)%nat);
    try (injection H as <- <- <-; left; repeat split; discriminate).
  destruct (Nip68.uploadImages w signer f (Nip68.imageFiles f) [])
    as [[f' uploaded]| |] eqn:Hup;
    try (injection H as <- <- <-; left; repeat split; discriminate).
  destruct (Nip68.downloadImages w (Nip68.imageURLs f') uploaded [])
    as [[imetaTags cleanup]| |] eqn:Hdown;
    try (injection H as <- <- <-; left; repeat split; discriminate).
  match type of H with
  | match ?c with _ => _ end = _ => destruct c as [[built|]|] eqn:Hbuilt
  end; try discriminate;
    try (injection H as <- <- <-; left; repeat split; discriminate).
  destruct (SignEvent signer built) as [event|] eqn:Hsign;
    try (injection H as <- <- <-; left; repeat split; discriminate).
  right. exists f, signer, f', uploaded, imetaTags, cleanup, built, event.
  repeat (split; [reflexivity || assumption|]).
  unfold picturePublishStage.
  destruct (negb (String.eqb (Nip68.relay f') "")
            || negb (String.eqb (Nip68.r f') "")); [|congruence].
  destruct (Nip68.loadRelays w (Nip68.relay f')) as [relays| |];
    try congruence.
  destruct (if (length relays =? 0)%nat
            then Nip68.loadRelays w (Nip68.r f')
            else Return relays) as [relays'| |]; try congruence.
  destruct (0 <? length relays')%nat; [|congruence].
  destruct (PublishEvent net event signer s relays') as [s1 acts]. congruence.
Qed.

End PictureStageFacts.

(** Unlike the video command, the picture command treats a relay flag that
    resolves to no relay as fatal: once the event is printed it stops with
    "No relays found to publish the event", naming the [-relay] parameter
    (also when only [-r] was given); no relay is contacted and the files it
    downloaded are left behind. *)
Theorem picture_command_needs_a_relay :
  forall {S Conn : Type} (net : Network S Conn) (w : World) (fuel : nat)
         (args : Nip68.Flags) (s s' : S) (tr : list Action) (out : run unit)
         (msg : string) (event : Event),
    Nip68.main net w fuel args s = Some (s', tr, out) ->
    In (APrintln msg event) tr ->
    Nip68.relay args <> "" \/ Nip68.r args <> "" ->
    unresolvable w (Nip68.relay args) ->
    unresolvable w (Nip68.r args) ->
    out = Fatalf ("No relays found to publish the event. Relay parameter: "
                    +:+ Nip68.relay args) /\
    s' = s /\
    tr = [APrintln msg event].
Proof.
  intros S Conn net w fuel args s s' tr out msg event H Hin Hflag Hrelay Hr.
  destruct (picture_main_cases net w fuel args s s' tr out H)
    as [(-> & _)|(f & signer & f' & uploaded & imetaTags & cleanup & built
                  & signed & Hparse & Hup & _ & _ & _ & Hstage)];
    [contradiction|].
  apply picture_parse_keeps in Hparse as (Hrel1 & Hr1 & _).
  apply uploadImages_appends in Hup as (_ & Hrel2 & Hr2 & _).
  rewrite Hrel1 in Hrel2. rewrite Hr1 in Hr2.
  unfold picturePublishStage in Hstage. rewrite Hrel2, Hr2 in Hstage.
  assert (Hset : negb (String.eqb (Nip68.relay args) "")
                 || negb (String.eqb (Nip68.r args) "") = true).
  { destruct (String.eqb_spec (Nip68.relay args) ""); [|reflexivity].
    destruct (String.eqb_spec (Nip68.r args) ""); [|reflexivity].
    destruct Hflag; contradiction. }
  rewrite Hset, (picture_loadRelays_unresolvable _ _ Hrelay) in Hstage.
  cbn [length Nat.eqb] in Hstage.
  rewrite (picture_loadRelays_unresolvable _ _ Hr) in Hstage.
  cbn [length Nat.ltb Nat.leb] in Hstage.
  injection Hstage as <- <- <-. split; [reflexivity|]. split; [reflexivity|].
  destruct Hin as [<-|[]]. reflexivity.
Qed.

Lemma picture_command_needs_a_relay_witness :
  exists event,
    Nip68.main network imageWorld 10 pictureNowhereFlags []
    = Some ([], [APrintln "Generated Event Data:" event],
            Fatalf "No relays found to publish the event. Relay parameter: nowhere").
Proof.
  assert (Hrun : exists event tr out,
             Nip68.main network imageWorld 10 pictureNowhereFlags []
             = Some ([], tr, out) /\
             In (APrintln "Generated Event Data:" event) tr).
  { eexists. eexists. eexists. split; [vm_compute; reflexivity|].
    left. reflexivity. }
  destruct Hrun as (event & tr & out & Hrun & Hin).
  destruct (picture_command_needs_a_relay network imageWorld 10
              pictureNowhereFlags [] [] tr out "Generated Event Data:" event
              Hrun Hin) as (-> & _ & ->).
  - left. discriminate.
  - repeat split; discriminate.
  - repeat split; discriminate.
  - exists event. exact Hrun.
Defined.

(** What the picture command prints is the event it built and signed. *)
Lemma picture_printed_is_signed {S Conn : Type} (net : Network S Conn)
      w fuel args s s' tr out msg event :
  Nip68.main net w fuel args s = Some (s', tr, out) ->
  In (APrintln msg event) tr ->
  exists f signer f' uploaded imetaTags cleanup built,
    Nip68.parseAndInitParams w args = Return (f, signer) /\
    Nip68.uploadImages w signer f (Nip68.imageFiles f) []
    = Return (f', uploaded) /\
    Nip68.downloadImages w (Nip68.imageURLs f') uploaded []
    = Return (imetaTags, cleanup) /\
    Nip68.createNip68Event w fuel f' signer imetaTags (Nip68.title f')
      (Nip68.publishedAt f') (Nip68.description f') = Some (Ok built) /\
    SignEvent signer built = Ok event.
Proof.
  intros H Hin.
  destruct (picture_main_cases net w fuel args s s' tr out H)
    as [(-> & _)|(f & signer & f' & uploaded & imetaTags & cleanup & built
                  & signed & Hparse & Hup & Hdown & Hbuilt & Hsign & Hstage)];
    [contradiction|].
  assert (Hsame : signed = event).
  { assert (Hclean : Forall (fun a => isPrintln a = false) cleanup).
    { pose proof Hdown as Hd.
      apply downloadImages_pictureTags in Hd as [_ Hc]; [exact Hc| |].
      - pose proof Hup as Hu.
        apply uploadImages_pictureTags in Hu; [exact Hu|constructor].
      - constructor. }
    assert (Hone : forall acts,
               Forall (fun a => isPrintln a = false) acts ->
               In (APrintln msg event)
                 (APrintln "Generated Event Data:" signed :: acts) ->
               signed = event).
    { intros acts Hall [Heq|Hrest]; [congruence|].
      rewrite List.Forall_forall in Hall. apply Hall in Hrest. discriminate. }
    unfold picturePublishStage in Hstage.
    destruct (negb (String.eqb (Nip68.relay f') "")
              || negb (String.eqb (Nip68.r f') "")).
    - destruct (Nip68.loadRelays w (Nip68.relay f')) as [relays| |];
        try (injection Hstage as <- <- <-; apply (Hone []);
             [constructor|exact Hin]).
      destruct (if (length relays =? 0)%nat
                then Nip68.loadRelays w (Nip68.r f')
                else Return relays) as [relays'| |];
        try (injection Hstage as <- <- <-; apply (Hone []);
             [constructor|exact Hin]).
      destruct (0 <? length relays')%nat.
      + pose proof (PublishEvent_no_println net signed signer s relays') as Hpub.
        destruct (PublishEvent net signed signer s relays') as [s1 acts].
        injection Hstage as <- <- <-. simpl in Hpub.
        eapply Hone; [|exact Hin]. apply Forall_app. split; assumption.
      + injection Hstage as <- <- <-. apply (Hone []); [constructor|exact Hin].
    - injection Hstage as <- <- <-. eapply Hone; [|exact Hin]. exact Hclean. }
  subst signed.
  exists f, signer, f', uploaded, imetaTags, cleanup, built. auto.
Qed.



Lemma picture_parse_publishedAt w args f signer :
  Nip68.parseAndInitParams w args = Return (f, signer) ->
  Nip68.publishedAt f
  = if String.eqb (Nip68.publishedAt args) ""
    then Itoa (nowAtParse w) else Nip68.publishedAt args.
Proof.
  unfold Nip68.parseAndInitParams. intros H.
  destruct (String.eqb (Nip68.description args) "");
    cbn [Nip68.publishedAt Nip68.setDescription] in H;
    destruct (String.eqb (Nip68.publishedAt args) "");
    repeat match type of H with
           | context [if ?b then _ else _] => destruct b
           | context [match nip19Decode ?w ?k with _ => _ end] =>
               destruct (nip19Decode w k) as [[? []]|]
           | context [match NewPlainKeySigner ?w ?k with _ => _ end] =>
               destruct (NewPlainKeySigner w k)
           end; simpl in H; try discriminate; injection H as <- <-;
    reflexivity.
Qed.

(** After the first loop the publish time is as it was when there was no
    file, and a decimal number once a file was uploaded. *)
Lemma uploadImages_publishedAt w signer files :
  forall f imetaTags f' imetaTags',
    Nip68.uploadImages w signer f files imetaTags = Return (f', imetaTags') ->
    (files = [] /\ f' = f) \/
    (files <> [] /\ exists n, Nip68.publishedAt f' = Itoa n).
Proof.
  induction files as [|imageFile rest IH]; intros f imetaTags f' imetaTags' H;
    simpl in H.
  - injection H as <- <-. left. auto.
  - right. split; [discriminate|].
    destruct (UploadFile w (Nip68.blossom f) imageFile signer) as [uploadInfo|];
      [|discriminate].
    destruct (uploadInfo !! "url") as [[imageURL| |]|]; try discriminate.
    destruct (Nip68.addImageIMetaTag w imageFile imageURL) as [tag| |];
      try discriminate.
    apply IH in H as [(_ & ->)|(_ & Hn)]; [|exact Hn].
    destruct (uploadInfo !! "uploaded") as [[|uploadedAt|]|]; simpl; eauto.
Qed.

(** The picture command never checks the publish time.  With URLs only, the
    [published_at] tag of the printed event carries the [-published_at]
    string as it was given, whatever it is, and the clock at start when none
    was given; once a file has been uploaded the flag is ignored, and the
    tag carries a decimal number. *)
Theorem picture_publish_time_unchecked :
  forall {S Conn : Type} (net : Network S Conn) (w : World) (fuel : nat)
         (args : Nip68.Flags) (s s' : S) (tr : list Action) (out : run unit)
         (msg : string) (event : Event),
    Nip68.main net w fuel args s = Some (s', tr, out) ->
    In (APrintln msg event) tr ->
    exists value,
      nth_error (Tags_ event) 1 = Some ["published_at"; value] /\
      (Nip68.imageFiles args = [] ->
       value = if String.eqb (Nip68.publishedAt args) ""
               then Itoa (nowAtParse w) else Nip68.publishedAt args) /\
      (Nip68.imageFiles args <> [] -> exists n, value = Itoa n).
Proof.
  intros S Conn net w fuel args s s' tr out msg event H Hin.
  destruct (picture_printed_is_signed net w fuel args s s' tr out msg event
              H Hin)
    as (f & signer & f' & uploaded & imetaTags & cleanup & built
        & Hparse & Hup & Hdown & Hbuilt & Hsign).
  pose proof (picture_parse_publishedAt _ _ _ _ Hparse) as Htime.
  apply picture_parse_keeps in Hparse as (_ & _ & _ & _ & Hfiles & _).
  apply uploadImages_publishedAt in Hup.
  apply SignEvent_keeps in Hsign as (-> & _).
  apply createNip68Event_shape in Hbuilt as (extra & _ & ->).
  exists (Nip68.publishedAt f'). split; [reflexivity|].
  rewrite Hfiles in Hup.
  destruct Hup as [(Hnone & ->)|(Hsome & Hn)]; split; intros Hargs;
    try contradiction; [exact Htime|exact Hn].
Qed.

Lemma picture_publish_time_witness :
  exists event,
    In (APrintln "Generated Event Data:" event)
      (match Nip68.main network imageWorld 10 pictureDatedFlags [] with
       | Some (_, tr, _) => tr
       | None => []
       end) /\
    nth_error (Tags_ event) 1 = Some ["published_at"; "yesterday"] /\
    ParseInt "yesterday" = inl ErrSyntax.
Proof.
  assert (Hrun : exists event tr,
             Nip68.main network imageWorld 10 pictureDatedFlags []
             = Some ([], APrintln "Generated Event Data:" event :: tr,
                     Return tt))
    by (vm_compute; do 2 eexists; reflexivity).
  destruct Hrun as (event & tr & Hrun).
  destruct (picture_publish_time_unchecked network imageWorld 10
              pictureDatedFlags [] [] _ _ "Generated Event Data:" event Hrun
              (or_introl eq_refl))
    as (value & Htag & Hvalue & _).
  exists event. split; [rewrite Hrun; left; reflexivity|].
  split; [|reflexivity].
  rewrite Htag, (Hvalue eq_refl). reflexivity.
Defined.





(** ** Hashtags *)

Lemma append_cons (c : ascii) (s t : string) :
  String c s +:+ t = String c (s +:+ t).
Proof. reflexivity. Qed.

Lemma append_empty (s : string) : s +:+ "" = s.
Proof.
  induction s as [|c s IH]; [reflexivity|].
  rewrite append_cons, IH. reflexivity.
Qed.

Lemma append_assoc (s t u : string) : (s +:+ t) +:+ u = s +:+ (t +:+ u).
Proof.
  induction s as [|c s IH]; [reflexivity|].
  rewrite !append_cons, IH. reflexivity.
Qed.

Lemma allWordChars_app word word' :
  allWordChars (word +:+ word') = allWordChars word && allWordChars word'.
Proof.
  induction word as [|c rest IH]; [reflexivity|].
  rewrite append_cons. simpl. rewrite IH, andb_assoc. reflexivity.
Qed.

Lemma emit_words word :
  allWordChars word = true ->
  exists words,
    emit word = map (fun w => "#" +:+ w) words /\
    Forall isWord words /\ (length words <= 1)%nat.
Proof.
  intros Hword. unfold emit.
  destruct (String.eqb_spec word "") as [->|Hne].
  - exists []. repeat split; [constructor|simpl; lia].
  - exists [word]. repeat split; [|simpl; lia].
    constructor; [split; assumption|constructor].
Qed.

(** Every match is a [#] followed by a word, and there are no more matches
    than [#] signs. *)
Lemma findHashtags_words text :
  forall cur,
    (forall word, cur = Some word -> allWordChars word = true) ->
    exists words,
      findHashtags text cur = map (fun w => "#" +:+ w) words /\
      Forall isWord words /\
      (length words
       <= countHash text
          + match cur with Some _ => 1 | None => 0 end)%nat.
Proof.
  induction text as [|c rest IH]; intros cur Hcur.
  - destruct cur as [word|]; simpl.
    + destruct (emit_words word (Hcur _ eq_refl)) as (words & -> & Hall & Hlen).
      exists words. repeat split; [exact Hall|lia].
    + exists []. repeat split; [constructor|simpl; lia].
  - assert (Hnext : forall word,
               (if isHash c then Some "" else None) = Some word ->
               allWordChars word = true).
    { intros word Hw. destruct (isHash c); [|discriminate].
      injection Hw as <-. reflexivity. }
    destruct cur as [word|]; simpl.
    + destruct (isWordChar c) eqn:Hc.
      * destruct (IH (Some (word +:+ String c EmptyString))) as
            (words & -> & Hall & Hlen).
        { intros w [= <-]. rewrite allWordChars_app, (Hcur _ eq_refl).
          simpl. rewrite Hc. reflexivity. }
        exists words. repeat split; [exact Hall|lia].
      * destruct (emit_words word (Hcur _ eq_refl))
          as (first & -> & Hall1 & Hlen1).
        destruct (IH _ Hnext) as (words & -> & Hall & Hlen).
        exists (first ++ words). rewrite map_app. repeat split.
        -- apply Forall_app. split; assumption.
        -- rewrite length_app. destruct (isHash c); lia.
    + destruct (IH _ Hnext) as (words & -> & Hall & Hlen).
      exists words. repeat split; [exact Hall|].
      destruct (isHash c); lia.
Qed.

Lemma hashtag_tags_fold (tags : list string) :
  forall event : Event,
    fold_left
      (fun ev tag => setTags ev (Tags_ ev ++ [["t"; TrimPrefix tag "#"]]))
      tags event
    = setTags event
        (Tags_ event ++ map (fun tag => ["t"; TrimPrefix tag "#"]) tags).
Proof.
  induction tags as [|tag rest IH]; intros event; simpl.
  - rewrite app_nil_r. destruct event. reflexivity.
  - rewrite IH. simpl. rewrite <- app_assoc. reflexivity.
Qed.

Lemma ExtractHashtags_tags event :
  Content event <> "" ->
  ExtractHashtags event
  = setTags event
      (Tags_ event
         ++ map (fun tag => ["t"; TrimPrefix tag "#"])
              (findHashtags (Content event) None)).
Proof.
  intros Hne. unfold ExtractHashtags.
  destruct (String.eqb_spec (Content event) ""); [contradiction|].
  apply hashtag_tags_fold.
Qed.

(** [ExtractHashtags] only ever adds tags: the tags of the event stay in
    front, in their order, and every other field is as it was.  Each tag
    added is a [t] tag whose value is a non-empty word of letters, digits
    and underscores, without the [#]; there are never more of them than
    there are [#] signs in the content, so that a content without [#], the
    empty one included, leaves the event unchanged. *)
Theorem ExtractHashtags_adds_word_tags :
  forall event : Event,
  exists words,
    ExtractHashtags event
    = setTags event (Tags_ event ++ map (fun w => ["t"; w]) words) /\
    Forall isWord words /\
    (length words <= countHash (Content event))%nat /\
    (countHash (Content event) = 0%nat -> ExtractHashtags event = event).
Proof.
  intros event.
  assert (Hid : setTags event (Tags_ event ++ []) = event).
  { rewrite app_nil_r. destruct event. reflexivity. }
  destruct (String.eqb_spec (Content event) "") as [Hempty|Hne].
  - assert (Hsame : ExtractHashtags event = event)
      by (unfold ExtractHashtags; rewrite Hempty; reflexivity).
    exists []. rewrite Hsame.
    split; [symmetry; exact Hid|]. split; [constructor|].
    split; [simpl; lia|]. reflexivity.
  - destruct (findHashtags_words (Content event) None) as (words & Hw & Hall & Hlen);
      [discriminate|].
    exists words. rewrite (ExtractHashtags_tags _ Hne), Hw, map_map.
    simpl in Hlen. rewrite Nat.add_0_r in Hlen.
    split; [reflexivity|]. split; [exact Hall|]. split; [exact Hlen|].
    intros Hzero. rewrite Hzero in Hlen. destruct words; [|simpl in Hlen; lia].
    exact Hid.
Qed.

(** The scan can be cut anywhere: what was found before the cut stays in
    front, and the rest goes on from the state reached. *)
Lemma findHashtags_app before :
  forall cur,
  exists found cur',
    forall rest,
      findHashtags (before +:+ rest) cur = found ++ findHashtags rest cur'.
Proof.
  induction before as [|c before IH]; intros cur.
  - exists [], cur. reflexivity.
  - setoid_rewrite append_cons. destruct cur as [word|]; simpl.
    + destruct (isWordChar c).
      * destruct (IH (Some (word +:+ String c EmptyString))) as (found & cur' & H).
        exists found, cur'. exact H.
      * destruct (IH (if isHash c then Some "" else None)) as (found & cur' & H).
        exists (emit word ++ found), cur'. intros rest.
        rewrite H, app_assoc. reflexivity.
    + destruct (IH (if isHash c then Some "" else None)) as (found & cur' & H).
      exists found, cur'. exact H.
Qed.

Lemma findHashtags_word word :
  forall acc rest,
    allWordChars word = true ->
    findHashtags (word +:+ rest) (Some acc)
    = findHashtags rest (Some (acc +:+ word)).
Proof.
  induction word as [|c word IH]; intros acc rest Hword.
  - rewrite append_empty. reflexivity.
  - simpl in Hword. apply andb_true_iff in Hword as [Hc Hword].
    rewrite append_cons. simpl. rewrite Hc.
    rewrite IH by exact Hword. rewrite append_assoc. reflexivity.
Qed.

(** Nothing is missed: a [#] followed by a word that ends with the content,
    or at a character that is no word character, gives a [t] tag with that
    word. *)
Theorem ExtractHashtags_finds_every_hashtag :
  forall (event : Event) (before word after : string),
    Content event = before +:+ "#" +:+ word +:+ after ->
    isWord word ->
    (after = "" \/
     exists c rest, after = String c rest /\ isWordChar c = false) ->
    In ["t"; word] (Tags_ (ExtractHashtags event)).
Proof.
  intros event before word after Hcontent [Hne Hword] Hafter.
  assert (Hfound : In ("#" +:+ word) (findHashtags (Content event) None)).
  { rewrite Hcontent.
    destruct (findHashtags_app before None) as (found & cur' & ->).
    apply in_or_app. right.
    assert (Hstart : exists first,
               findHashtags ("#" +:+ word +:+ after) cur'
               = first ++ findHashtags (word +:+ after) (Some "")).
    { change ("#" +:+ word +:+ after) with (String "#" (word +:+ after)).
      destruct cur' as [w|]; simpl; [exists (emit w)|exists []]; reflexivity. }
    destruct Hstart as (first & ->). apply in_or_app. right.
    rewrite (findHashtags_word word "" after Hword).
    change ("" +:+ word) with word.
    assert (Hemit : emit word = ["#" +:+ word]).
    { unfold emit. destruct (String.eqb_spec word ""); [contradiction|reflexivity]. }
    destruct Hafter as [->|(c & rest & -> & Hc)]; simpl.
    - rewrite Hemit. left. reflexivity.
    - rewrite Hc, Hemit. left. reflexivity. }
  assert (Hcne : Content event <> "").
  { rewrite Hcontent. destruct before; discriminate. }
  rewrite (ExtractHashtags_tags _ Hcne). simpl.
  apply in_or_app. right.
  apply (in_map (fun tag => ["t"; TrimPrefix tag "#"])) in Hfound.
  exact Hfound.
Qed.

Lemma ExtractHashtags_finds_witness :
  In ["t"; "go_lang"] (Tags_ (ExtractHashtags taggedEvent)).
Proof.
  apply (ExtractHashtags_finds_every_hashtag taggedEvent "Sunset #nostr ##x "
           "go_lang" "! # #42").
  - reflexivity.
  - split; [discriminate|reflexivity].
  - right. exists "!"%char, " # #42". split; reflexivity.
Defined.
